(** * MassPassGen: a shallow embedding of [masspassgen.py]

    The development follows the Python source function by function.

    - Python [str] values are Rocq [string]s (one [ascii] per character),
      Python [int]s are [Z], [None]-able arguments are [option]s.
    - The process state the program touches is gathered in one record,
      [world]: the random generator (an arbitrary stream of raw draws and a
      cursor into it), the console, the standard input and the file system
      together with the errors the operating system answers with.
    - Computations live in the monad [M]: they read and change the world and
      end with a value, with a raised exception, or without an answer when the
      fuel given to the one unbounded loop of the program is used up. *)

From Stdlib Require Import ZArith Ascii String DecimalString DecimalZ.
From stdpp Require Import gmap strings list.

Open Scope string_scope.
Open Scope Z_scope.

(** ** Python strings *)

Module Py.

(** [str(i)] for an [int]. *)
Definition str (i : Z) : string := NilZero.string_of_int (Z.to_int i).

(** [len(s)], as a Python [int]. *)
Definition len (s : string) : Z := Z.of_nat (String.length s).

(** The scan of [s.replace(old, new)] for a non-empty [old]: left to right,
    every occurrence found is replaced and the scan resumes behind it
    ([skip] counts the characters of the occurrence still to be passed). *)
Fixpoint replace_scan (old new : string) (skip : nat) (s : string) : string :=
  match s with
  | EmptyString => EmptyString
  | String c s' =>
      match skip with
      | S k => replace_scan old new k s'
      | O =>
          if String.prefix old s
          then new +:+ replace_scan old new (String.length old - 1) s'
          else String c (replace_scan old new O s')
      end
  end.

(** What [replace] does with the empty [old]: [new] before every character
    and at the end. *)
Fixpoint interleave (new s : string) : string :=
  match s with
  | EmptyString => new
  | String c s' => new +:+ String c (interleave new s')
  end.

(** [s.replace(old, new)]. *)
Definition replace (old new s : string) : string :=
  match old with
  | EmptyString => interleave new s
  | String _ _ => replace_scan old new O s
  end.

Definition lower_char (c : ascii) : ascii :=
  let n := nat_of_ascii c in
  if ((65 <=? n) && (n <=? 90))%nat then ascii_of_nat (n + 32) else c.

(** [s.lower()], on the ASCII letters. *)
Fixpoint lower (s : string) : string :=
  match s with
  | EmptyString => EmptyString
  | String c s' => String (lower_char c) (lower s')
  end.

(** [s.endswith(suffix)]. *)
Definition endswith (s suffix : string) : bool :=
  String.prefix (String.rev suffix) (String.rev s).

(** [range(n)]. *)
Definition range (n : Z) : list Z := Z.of_nat <$> seq 0 (Z.to_nat n).

(** The constants of the [string] module. *)
Definition ascii_lowercase : string := "abcdefghijklmnopqrstuvwxyz".
Definition ascii_uppercase : string := "ABCDEFGHIJKLMNOPQRSTUVWXYZ".
Definition ascii_letters : string := ascii_lowercase +:+ ascii_uppercase.
Definition digits : string := "0123456789".
Definition punctuation : string :=
  "!" +:+ String (ascii_of_nat 34) "#$%&'()*+,-./:;<=>?@[\]^_`{|}~".

(** The line feed, ['\n']. *)
Definition LF : ascii := ascii_of_nat 10.
(** The carriage return, ['\r']. *)
Definition CR : ascii := ascii_of_nat 13.

End Py.

(** ** Exceptions, outcomes and the world *)

Inductive exn : Type :=
| ValueError (msg : string)
| IndexError (msg : string)
| OSError (msg : string)
| EOFError
| SystemExit (code : Z).

(** [isinstance(e, Exception)]: [SystemExit] derives from [BaseException]
    only, so an [except Exception] clause lets it pass. *)
Definition is_Exception (e : exn) : bool :=
  match e with
  | SystemExit _ => false
  | _ => true
  end.

(** [str(e)], the text an f-string shows for [{e}]. *)
Definition exn_str (e : exn) : string :=
  match e with
  | ValueError msg | IndexError msg | OSError msg => msg
  | EOFError => "EOF when reading a line"
  | SystemExit code => Py.str code
  end.

Inductive outcome (A : Type) : Type :=
| Ok (a : A)
| Raise (e : exn)
| OutOfFuel.
Arguments Ok {A} a.
Arguments Raise {A} e.
Arguments OutOfFuel {A}.

(** The state of the process and of its environment.
    - [rng_draws] and [rng_pos]: what the generator of module [random] will
      answer, as raw numbers, and how many of them were consumed.
    - [stdout]: the texts printed so far; [stdin]: the lines still to be read.
    - [files]: the content of every existing file.
    - [open_error path = Some cause]: opening [path] for writing fails;
      [write_error path k = Some cause]: the write number [k] (from 0) on
      [path] after it was opened fails;
      [flushed path]: how many characters of the text handed over for
      [path] the operating system has taken when a write on it fails. *)
Record world : Type := World {
  rng_draws : nat → nat;
  rng_pos : nat;
  stdout : list string;
  stdin : list string;
  files : gmap string string;
  open_error : string → option string;
  write_error : string → nat → option string;
  flushed : string → nat
}.

Definition set_rng_pos (p : nat) (w : world) : world :=
  World (rng_draws w) p (stdout w) (stdin w) (files w) (open_error w) (write_error w)
    (flushed w).
Definition set_stdout (o : list string) (w : world) : world :=
  World (rng_draws w) (rng_pos w) o (stdin w) (files w) (open_error w) (write_error w)
    (flushed w).
Definition set_stdin (i : list string) (w : world) : world :=
  World (rng_draws w) (rng_pos w) (stdout w) i (files w) (open_error w) (write_error w)
    (flushed w).
Definition set_files (f : gmap string string) (w : world) : world :=
  World (rng_draws w) (rng_pos w) (stdout w) (stdin w) f (open_error w) (write_error w)
    (flushed w).

(** ** The monad of computations *)

Definition M (A : Type) : Type := world → outcome A * world.

Definition ret {A} (a : A) : M A := λ w, (Ok a, w).
Definition raise {A} (e : exn) : M A := λ w, (Raise e, w).
Definition out_of_fuel {A} : M A := λ w, (OutOfFuel, w).

Definition bind {A B} (m : M A) (k : A → M B) : M B :=
  λ w, match m w with
       | (Ok a, w') => k a w'
       | (Raise e, w') => (Raise e, w')
       | (OutOfFuel, w') => (OutOfFuel, w')
       end.

Notation "x <- m ;; k" := (bind m (λ x, k))
  (at level 100, m at next level, right associativity).
Notation "m ;;; k" := (bind m (λ _, k))
  (at level 100, right associativity).

(** [try: body except Exception as e: handler(e)]. *)
Definition try_except {A} (body : M A) (handler : exn → M A) : M A :=
  λ w, match body w with
       | (Raise e, w') =>
           if is_Exception e then handler e w' else (Raise e, w')
       | r => r
       end.

(** *** The console *)

(** [print(text)]. *)
Definition print (text : string) : M unit :=
  λ w, (Ok tt, set_stdout (stdout w ++ [text])%list w).

(** [input(prompt)]. *)
Definition input (prompt : string) : M string :=
  λ w, let w := set_stdout (stdout w ++ [prompt])%list w in
       match stdin w with
       | [] => (Raise EOFError, w)
       | line :: rest => (Ok line, set_stdin rest w)
       end.

(** [sys.exit(code)]. *)
Definition sys_exit {A} (code : Z) : M A := raise (SystemExit code).

(** *** Module [random] *)

Module random.

(** One draw below [n]: the next raw number of the stream, reduced. *)
Definition randbelow (n : nat) : M nat :=
  λ w, (Ok (rng_draws w (rng_pos w) `mod` n)%nat, set_rng_pos (S (rng_pos w)) w).

Definition default_char : ascii := Ascii.zero.

(** [random.choice(seq)]. *)
Definition choice (population : string) : M ascii :=
  match population with
  | EmptyString => raise (IndexError "Cannot choose from an empty sequence")
  | String _ _ =>
      i <- randbelow (String.length population);;
      ret (default default_char (String.get i population))
  end.

Fixpoint choices_nat (population : string) (k : nat) : M string :=
  match k with
  | O => ret EmptyString
  | S k' =>
      c <- choice population;;
      s <- choices_nat population k';;
      ret (String c s)
  end.

(** [''.join(random.choices(population, k=k))]: [k] independent draws, none
    for [k <= 0]. *)
Definition choices (population : string) (k : Z) : M string :=
  choices_nat population (Z.to_nat k).

(** [random.randint(a, b)]. *)
Definition randint (a b : Z) : M Z :=
  if b <? a then raise (ValueError "empty range for randrange()")
  else i <- randbelow (Z.to_nat (b - a + 1));; ret (a + Z.of_nat i).

End random.

(** *** Files *)

(** [open(path, 'w')]: the file is created or truncated, unless the
    operating system refuses. *)
Definition open_w (path : string) : M unit :=
  λ w, match open_error w path with
       | Some cause => (Raise (OSError cause), w)
       | None => (Ok tt, set_files (<[path := EmptyString]> (files w)) w)
       end.

(** [f.write(data)], the write number [k] on the file opened at [path]. The
    file of [open(path, 'w')] is a buffered text file: [f.write] hands its
    text to the buffer, behind the text [handed] over since the file was
    opened, and the buffer goes to the file at a flush, when it is full, and
    otherwise when the file is closed. The error of a flush surfaces in the
    write that set the flush off, or in the closing of the file, which is
    counted here with the last write. The file then keeps what the operating
    system had taken of the text handed over, this write included: its first
    [flushed path] characters, which may end anywhere, also in the middle of
    an entry. Between two writes that go through nothing looks at the file,
    and the model leaves it as it is until it is closed. *)
Definition write (path : string) (k : nat) (handed data : string) : M string :=
  λ w, match write_error w path k with
       | Some cause =>
           (Raise (OSError cause),
            set_files (<[path := String.substring 0 (flushed w path)
                                   (handed +:+ data)]> (files w)) w)
       | None => (Ok (handed +:+ data), w)
       end.

(** [f.close()], as the [with] block does on the way out: what was handed
    over is in the file. *)
Definition close (path handed : string) : M unit :=
  λ w, (Ok tt, set_files (<[path := handed]> (files w)) w).

(** ** class MassPassGen *)

Record MassPassGen : Type := {
  min_len : Z;
  max_len : Z;
  charset : string
}.

(** [MassPassGen(min_len, max_len)]. *)
Definition __init__ (min_len max_len : Z) : MassPassGen :=
  {| min_len := min_len;
     max_len := max_len;
     charset := Py.ascii_letters +:+ Py.digits +:+ Py.punctuation |}.

(** [if length:] on an optional [int]: [None] and [0] count as absent. *)
Definition truthy_int (length : option Z) : bool :=
  match length with
  | Some l => negb (l =? 0)
  | None => false
  end.

(** [if pattern:] on an optional [str]: [None] and [''] count as absent. *)
Definition truthy_str (pattern : option string) : bool :=
  match pattern with
  | Some (String _ _) => true
  | _ => false
  end.

(** The [while len(passwords) < count] loop of [generate_random_passwords];
    [fuel] bounds the number of iterations the model follows. *)
Fixpoint sample_loop (fuel : nat) (self : MassPassGen) (count target_len : Z)
    (passwords : gset string) : M (gset string) :=
  if Z.of_nat (size passwords) <? count then
    match fuel with
    | O => out_of_fuel
    | S fuel' =>
        pwd <- random.choices (charset self) target_len;;
        let passwords := {[pwd]} ∪ passwords in
        (if Z.of_nat (size passwords) `mod` 100000 =? 0
         then print ("[*] Progress: " +:+ Py.str (Z.of_nat (size passwords))
                       +:+ "/" +:+ Py.str count)
         else ret tt);;;
        sample_loop fuel' self count target_len passwords
    end
  else ret passwords.

(** [generate_random_passwords(self, count, length=None)]. The returned list
    is [list(passwords)]: the members of the set, in the order the set
    hands them out. *)
Definition generate_random_passwords (fuel : nat) (self : MassPassGen)
    (count : Z) (length : option Z) : M (list string) :=
  target_len <- (if truthy_int length then ret (default 0 length)
                 else random.randint (min_len self) (max_len self));;
  print ("[*] Generating " +:+ Py.str count +:+ " random passwords...");;;
  passwords <- sample_loop fuel self count target_len ∅;;
  ret (elements passwords).

(** [apply_pattern(self, pattern, seed)]. *)
Definition apply_pattern (self : MassPassGen) (pattern : string) (seed : Z)
    : M string :=
  let result := pattern in
  let result := Py.replace "{n}" (Py.str seed) result in
  a <- random.choice Py.ascii_letters;;
  let result := Py.replace "{a}" (String a EmptyString) result in
  d <- random.choice Py.digits;;
  let result := Py.replace "{d}" (String d EmptyString) result in
  s <- random.choice Py.punctuation;;
  let result := Py.replace "{s}" (String s EmptyString) result in
  ret result.

(** [self.min_len <= len(pwd) <= self.max_len]. *)
Definition length_ok (self : MassPassGen) (pwd : string) : bool :=
  (min_len self <=? Py.len pwd) && (Py.len pwd <=? max_len self).

Section Coordinator.

(** The method the loop reaches as [self.apply_pattern]. *)
Variable expand : MassPassGen → string → Z → M string.

(** The [for i in range(count)] loop, over the seeds still to come. *)
Fixpoint pattern_loop (self : MassPassGen) (pattern : string) (seeds : list Z)
    (passwords : list string) : M (list string) :=
  match seeds with
  | [] => ret passwords
  | i :: seeds' =>
      pwd <- expand self pattern i;;
      let passwords :=
        if length_ok self pwd then (passwords ++ [pwd])%list else passwords in
      pattern_loop self pattern seeds' passwords
  end.

Definition generate_pattern_passwords_with (self : MassPassGen)
    (pattern : string) (count : Z) : M (list string) :=
  print "[*] Generating pattern-based passwords...";;;
  pattern_loop self pattern (Py.range count) [].

End Coordinator.

(** [generate_pattern_passwords(self, pattern, count)]. *)
Definition generate_pattern_passwords : MassPassGen → string → Z → M (list string) :=
  generate_pattern_passwords_with apply_pattern.

(** The [for pwd in passwords: f.write(pwd + '\n')] loop; [k] numbers the
    writes since the file was opened, and [handed] is the text they handed
    over. *)
Fixpoint write_all (filename : string) (k : nat) (handed : string)
    (passwords : list string) : M string :=
  match passwords with
  | [] => ret handed
  | pwd :: rest =>
      handed <- write filename k handed (pwd +:+ String Py.LF EmptyString);;
      write_all filename (S k) handed rest
  end.

(** [save_to_file(self, passwords, filename)]. The [with] block opens the
    file, runs the loop and closes the file; an error on the way is caught
    by the [except Exception] clause, with the file left as the operating
    system has it. *)
Definition save_to_file (self : MassPassGen) (passwords : list string)
    (filename : string) : M bool :=
  try_except
    (open_w filename;;;
     handed <- write_all filename O EmptyString passwords;;
     close filename handed;;;
     print ("[+] Successfully saved " +:+ Py.str (Z.of_nat (length passwords))
              +:+ " passwords to " +:+ filename);;;
     ret true)
    (λ e, print ("[-] Error saving file: " +:+ exn_str e);;; ret false).

(** ** The command line *)

(** What [parser.parse_args()] hands to [main]. *)
Record args : Type := {
  a_count : Z;
  a_output : string;
  a_length : option Z;
  a_min : Z;
  a_max : Z;
  a_pattern : option string
}.

Definition banner_text : string := "
╔═══════════════════════════════════════════╗
║         MassPassGen v1.0                  ║
║    Mass Password Generator Tool           ║
║    For Security Testing Purposes          ║
╚═══════════════════════════════════════════╝
    ".

Definition banner : M unit := print banner_text.

(** The three checks under [# Validation], in the order of the source; each
    prints its message and leaves through [sys.exit(1)]. *)
Definition validation (a : args) : M unit :=
  (if (a_min a <? 1) || (a_max a >? 128)
   then print "[-] Password length must be between 1 and 128";;; sys_exit 1
   else ret tt);;;
  (if a_min a >? a_max a
   then print "[-] Minimum length cannot be greater than maximum length";;; sys_exit 1
   else ret tt);;;
  (if a_count a <? 1
   then print "[-] Count must be at least 1";;; sys_exit 1
   else ret tt).

(** The question asked above ten million passwords. *)
Definition confirmation (a : args) : M unit :=
  if a_count a >? 10000000 then
    response <- input ("[!] Warning: Generating " +:+ Py.str (a_count a)
      +:+ " passwords may take significant time and memory. Continue? (y/n): ");;
    if String.eqb (Py.lower response) "y" then ret tt
    else print "[*] Aborted";;; sys_exit 0
  else ret tt.

(** The name of the output file: [args.output], with [.txt] put behind it
    if it does not end with it. *)
Definition output_name (output : string) : string :=
  if Py.endswith output ".txt" then output else output +:+ ".txt".

(** [main()] from the point where [parse_args] has returned the arguments
    [a], with the banner printed before it. What [argparse] does with a
    command line it refuses, or with [--help], is the library's and is not
    modelled: it leaves [main] there with a [SystemExit] of its own. *)
Definition main (fuel : nat) (a : args) : M unit :=
  banner;;;
  validation a;;;
  confirmation a;;;
  let gen := __init__ (a_min a) (a_max a) in
  passwords <- (if truthy_str (a_pattern a)
                then generate_pattern_passwords gen (default EmptyString (a_pattern a)) (a_count a)
                else generate_random_passwords fuel gen (a_count a) (a_length a));;
  let output := output_name (a_output a) in
  save_to_file gen passwords output;;;
  print (String Py.LF "[+] Generation complete!");;;
  print ("[+] Total passwords: " +:+ Py.str (Z.of_nat (length passwords)));;;
  print ("[+] File: " +:+ output).

(** ** Reading a written file back *)

(** The lines of a text, as iterating over a file opened for reading gives
    them with the terminator taken off: a line ends at a line feed, at a
    carriage return or at the pair of them, and a text that ends with a
    terminator has no further, empty line. [cur] is the line being read. *)
Fixpoint read_lines_from (cur : string) (text : string) : list string :=
  match text with
  | EmptyString =>
      match cur with
      | EmptyString => []
      | String _ _ => [cur]
      end
  | String c rest =>
      if Ascii.eqb c Py.LF then cur :: read_lines_from EmptyString rest
      else if Ascii.eqb c Py.CR then
        match rest with
        | String c' rest' =>
            if Ascii.eqb c' Py.LF then cur :: read_lines_from EmptyString rest'
            else cur :: read_lines_from EmptyString rest
        | EmptyString => [cur]
        end
      else read_lines_from (cur +:+ String c EmptyString) rest
  end.

Definition read_lines (text : string) : list string :=
  read_lines_from EmptyString text.

(** The lines of the file at [path], once the program is done. *)
Definition file_lines (w : world) (path : string) : option (list string) :=
  read_lines <$> files w !! path.

(** ** Notions the statements use *)

(** The characters of a text. *)
Definition chars (s : string) : list ascii := list_ascii_of_string s.
Arguments chars : simpl never.

(** [occurs t p]: the text [t] occurs in [p]. *)
Fixpoint occurs (t p : string) : bool :=
  String.prefix t p ||
  match p with
  | EmptyString => false
  | String _ p' => occurs t p'
  end.

(** The token [{x}]. *)
Definition tok (x : ascii) : string :=
  String "{" (String x (String "}" EmptyString)).

(** A table of tokens: the text that stands for [{x}], if [{x}] is one. *)
Definition table : Type := ascii → option string.

Definition tab_single (x : ascii) (v : string) : table :=
  λ y, if Ascii.eqb y x then Some v else None.

Definition tab_union (t1 t2 : table) : table :=
  λ y, match t1 y with Some v => Some v | None => t2 y end.

(** The token of the table at the head of [p], as its text and what follows. *)
Definition token_at (t : table) (p : string) : option (string * string) :=
  match p with
  | String c1 (String x (String c3 r)) =>
      if Ascii.eqb c1 "{" && Ascii.eqb c3 "}"
      then match t x with Some v => Some (v, r) | None => None end
      else None
  | _ => None
  end.

(** One pass over [p], left to right, that puts for every token of the
    table its text and keeps every other character. *)
Fixpoint substitute (t : table) (p : string) : string :=
  match p with
  | EmptyString => EmptyString
  | String c1 p1 =>
      match p1 with
      | String x (String c3 r) =>
          if Ascii.eqb c1 "{" && Ascii.eqb c3 "}"
          then match t x with
               | Some v => v +:+ substitute t r
               | None => String c1 (substitute t p1)
               end
          else String c1 (substitute t p1)
      | _ => String c1 (substitute t p1)
      end
  end.

(** The table of one expansion: the text of the seed for [{n}], and one
    letter, one digit and one symbol for [{a}], [{d}] and [{s}]. *)
Definition expansion_table (n : string) (a d s : ascii) : table :=
  tab_union (tab_union (tab_union (tab_single "n" n) (tab_single "a" (String a EmptyString)))
               (tab_single "d" (String d EmptyString)))
        (tab_single "s" (String s EmptyString)).

(** The character the draw number [k] from now on picks in [population]. *)
Definition drawn (population : string) (w : world) (k : nat) : ascii :=
  default random.default_char
    (String.get (rng_draws w (rng_pos w + k) `mod` String.length population)%nat
       population).

(** The text the draws number [k], [k + 1], ... [k + len - 1] pick. *)
Fixpoint drawn_string (population : string) (w : world) (k len : nat) : string :=
  match len with
  | O => EmptyString
  | S len' => String (drawn population w k) (drawn_string population w (S k) len')
  end.

(** The world after [k] more draws. *)
Definition after_draws (k : nat) (w : world) : world :=
  set_rng_pos (rng_pos w + k) w.

(** The letter, the digit and the symbol the next three draws pick. *)
Definition drawn_letter (w : world) : ascii := drawn Py.ascii_letters w 0.
Definition drawn_digit (w : world) : ascii := drawn Py.digits w 1.
Definition drawn_symbol (w : world) : ascii := drawn Py.punctuation w 2.

(** A world with the given draws to come, a silent console, no file, and an
    operating system that refuses nothing. *)
Definition quiet_world (draws : nat → nat) : world :=
  World draws 0 [] [] ∅ (λ _, None) (λ _ _, None) (λ _, O).

(** The first [n] texts of [len] characters the draws to come pick. *)
Definition samples (population : string) (len : nat) (w : world) (n : nat)
    : list string :=
  (λ i, drawn_string population w (i * len) len) <$> seq 0 n.

(** Every text of [len] characters of [population]. *)
Fixpoint all_strings (population : string) (len : nat) : list string :=
  match len with
  | O => [EmptyString]
  | S len' =>
      c ← chars population; s ← all_strings population len'; [String c s]
  end.

(** What an operation leaves untouched that only draws and prints:
    everything but the cursor of the generator, which moves by [k], and the
    console. *)
Definition advanced (k : nat) (w w' : world) : Prop :=
  rng_draws w' = rng_draws w ∧ rng_pos w' = (rng_pos w + k)%nat
  ∧ stdin w' = stdin w ∧ files w' = files w
  ∧ open_error w' = open_error w ∧ write_error w' = write_error w
  ∧ flushed w' = flushed w.

(** The sampler at work with a settled target length: what
    [generate_random_passwords] does once [target_len] is assigned. *)
Definition sample_with (fuel : nat) (self : MassPassGen) (count target_len : Z)
    : M (list string) :=
  print ("[*] Generating " +:+ Py.str count +:+ " random passwords...");;;
  passwords <- sample_loop fuel self count target_len ∅;;
  ret (elements passwords).

(** The length [random.randint(self.min_len, self.max_len)] answers with the
    next draw. *)
Definition chosen_length (self : MassPassGen) (w : world) : Z :=
  min_len self
  + Z.of_nat (rng_draws w (rng_pos w)
              `mod` Z.to_nat (max_len self - min_len self + 1))%nat.

(** The text [apply_pattern] makes of [pattern] and [seed] in the world
    [w]: the four replacements in the order of the source. *)
Definition expansion (pattern : string) (seed : Z) (w : world) : string :=
  Py.replace "{s}" (String (drawn_symbol w) EmptyString)
    (Py.replace "{d}" (String (drawn_digit w) EmptyString)
       (Py.replace "{a}" (String (drawn_letter w) EmptyString)
          (Py.replace "{n}" (Py.str seed) pattern))).

(** The calls of the expander for the seeds of a list, one after the other
    in the order of the list, and their results in that order. *)
Fixpoint expand_all (expand : MassPassGen → string → Z → M string)
    (self : MassPassGen) (pattern : string) (seeds : list Z) : M (list string) :=
  match seeds with
  | [] => ret []
  | i :: seeds' =>
      pwd <- expand self pattern i;;
      pwds <- expand_all expand self pattern seeds';;
      ret (pwd :: pwds)
  end.

(** The entries of a list, each followed by a line feed. *)
Fixpoint file_text (passwords : list string) : string :=
  match passwords with
  | [] => EmptyString
  | pwd :: rest => pwd +:+ String Py.LF EmptyString +:+ file_text rest
  end.

(** The world in which the file at [path] holds [text]. *)
Definition written (path text : string) (w : world) : world :=
  set_files (<[path := text]> (files w)) w.

(** A line terminator: the line feed or the carriage return. *)
Definition is_terminator (c : ascii) : bool :=
  Ascii.eqb c Py.LF || Ascii.eqb c Py.CR.

(** An expander that answers the seed [i] with the entry number [i] of a
    list given beforehand, as a test double of [apply_pattern] does. *)
Definition listed_expander (outputs : list string)
    : MassPassGen → string → Z → M string :=
  λ _ _ i, ret (default EmptyString (outputs !! Z.to_nat i)).

(** A world whose disk has room for five characters more: the file [o.txt]
    holds [old], and the second write on any file fails, with five
    characters taken. *)
Definition full_disk_world : world :=
  World (λ _, O) 0 [] [] {["o.txt" := "old"]} (λ _, None)
    (λ _ k, if (k =? 1)%nat then Some "[Errno 28] No space left on device" else None)
    (λ _, 5%nat).

(** What the checks under [# Validation] say of the arguments: the message
    of the first check that fails, if one does. *)
Definition rejection (a : args) : option string :=
  if (a_min a <? 1) || (a_max a >? 128)
  then Some "[-] Password length must be between 1 and 128"
  else if a_min a >? a_max a
  then Some "[-] Minimum length cannot be greater than maximum length"
  else if a_count a <? 1
  then Some "[-] Count must be at least 1"
  else None.

(** The pattern of fifteen [{n}]. *)
Definition fifteen_n : string :=
  "{n}{n}{n}{n}{n}{n}{n}{n}{n}{n}{n}{n}{n}{n}{n}".

(** The arguments of the run that keeps nothing: one password of the
    pattern [fifteen_n], of 1 to 5 characters. *)
Definition zero_result_args (output : string) : args :=
  {| a_count := 1; a_output := output; a_length := None;
     a_min := 1; a_max := 5; a_pattern := Some fifteen_n |}.

(** ** The rest of the script *)

(** The choice [main] makes between the two generators, with the generator
    it builds from the bounds. *)
Definition generate (fuel : nat) (a : args) : M (list string) :=
  if truthy_str (a_pattern a)
  then generate_pattern_passwords (__init__ (a_min a) (a_max a))
         (default EmptyString (a_pattern a)) (a_count a)
  else generate_random_passwords fuel (__init__ (a_min a) (a_max a))
         (a_count a) (a_length a).

(** The end of [main], from [# Save to file] on. *)
Definition finish (a : args) (passwords : list string) : M unit :=
  save_to_file (__init__ (a_min a) (a_max a)) passwords (output_name (a_output a));;;
  print (String Py.LF "[+] Generation complete!");;;
  print ("[+] Total passwords: " +:+ Py.str (Z.of_nat (length passwords)));;;
  print ("[+] File: " +:+ output_name (a_output a)).



(** The question [main] asks above ten million passwords. *)
Definition confirmation_prompt (a : args) : string :=
  "[!] Warning: Generating " +:+ Py.str (a_count a)
  +:+ " passwords may take significant time and memory. Continue? (y/n): ".

(** The first line of [generate_random_passwords] on the console. *)
Definition sampling_header (count : Z) : string :=
  "[*] Generating " +:+ Py.str count +:+ " random passwords...".

(** What [generate_pattern_passwords] returns in the world [w]: of the
    expansions for the seeds of [range(count)], each with its own three
    draws, those of a length within the bounds. *)
Definition pattern_passwords (self : MassPassGen) (pattern : string) (count : Z)
    (w : world) : list string :=
  filter (λ pwd, length_ok self pwd)
    (imap (λ j seed, expansion pattern seed (after_draws (3 * j) w))
       (Py.range count)).

(** The line [generate_random_passwords] prints when its set has come to
    [k] members. *)
Definition progress_line (count k : Z) : string :=
  "[*] Progress: " +:+ Py.str k +:+ "/" +:+ Py.str count.

(** * Facts and their proofs *)

(** * Strings *)

Section Strings.
Implicit Types (s t u : string) (c : ascii).

Lemma sapp_nil_l s : "" +:+ s = s.
Proof. reflexivity. Qed.

Lemma sapp_cons c s t : String c s +:+ t = String c (s +:+ t).
Proof. reflexivity. Qed.

Lemma sapp_nil_r s : s +:+ "" = s.
Proof. induction s as [|c s IH]; [done|]. by rewrite sapp_cons, IH. Qed.

Lemma sapp_assoc s t u : (s +:+ t) +:+ u = s +:+ t +:+ u.
Proof. induction s as [|c s IH]; [done|]. by rewrite !sapp_cons, IH. Qed.

Lemma slength_app s t :
  String.length (s +:+ t) = (String.length s + String.length t)%nat.
Proof. induction s as [|c s IH]; [done|]. rewrite sapp_cons. simpl. by rewrite IH. Qed.

Lemma sprefix_app t s : String.prefix t (t +:+ s) = true.
Proof.
  induction t as [|c t IH]; [by destruct s|].
  rewrite sapp_cons. simpl. by destruct (ascii_dec c c).
Qed.

Lemma sprefix_inv t s : String.prefix t s = true → ∃ r, s = t +:+ r.
Proof.
  revert s. induction t as [|c t IH]; intros s H.
  - by exists s.
  - destruct s as [|c' s]; simpl in H; [done|].
    destruct (ascii_dec c c') as [->|]; [|done].
    destruct (IH _ H) as [r ->]. by exists r.
Qed.

(** A prefix of [r +:+ z] lies within [r] or reaches into [z]. *)
Lemma sprefix_app_inv t r z :
  String.prefix t (r +:+ z) = true →
  String.prefix t r = true ∨
  ∃ t2 c, t = r +:+ String c t2 ∧ String.prefix (String c t2) z = true.
Proof.
  revert t. induction r as [|a r IH]; intros t H.
  - destruct t as [|c t2]; [by left|]. right. by exists t2, c.
  - destruct t as [|c t]; [by left|]. rewrite sapp_cons in H. simpl in *.
    destruct (ascii_dec c a) as [->|]; [|done].
    destruct (IH _ H) as [?|(t2 & c' & -> & ?)]; [by left|].
    right. by exists t2, c'.
Qed.

End Strings.

(** * [str.replace] *)

Lemma replace_scan_skip (old new w s : string) :
  Py.replace_scan old new (String.length w) (w +:+ s) = Py.replace_scan old new O s.
Proof. induction w as [|c w IH]; [done|]. by rewrite sapp_cons. Qed.

Section Replace.
Variables old new : string.
Hypothesis old_nonempty : old ≠ "".


Lemma replace_nil : Py.replace old new "" = "".
Proof. unfold Py.replace. by destruct old. Qed.

(** The scan at an occurrence of [old]: it is replaced, and the scan goes on
    behind it. *)
Lemma replace_hit s : Py.replace old new (old +:+ s) = new +:+ Py.replace old new s.
Proof.
  unfold Py.replace. destruct old as [|c t] eqn:E; [done|].
  rewrite sapp_cons. cbn [Py.replace_scan].
  rewrite <- sapp_cons, sprefix_app. f_equal.
  replace (String.length (String c t) - 1)%nat with (String.length t)
    by (simpl; lia).
  apply replace_scan_skip.
Qed.

(** The scan elsewhere: the character is kept. *)
Lemma replace_miss c s :
  String.prefix old (String c s) = false →
  Py.replace old new (String c s) = String c (Py.replace old new s).
Proof.
  intros H. unfold Py.replace. destruct old; [done|].
  cbn [Py.replace_scan]. by rewrite H.
Qed.

(** Induction along the scan. *)
Lemma replace_ind (P : string → Prop) :
  P "" →
  (∀ s, P s → P (old +:+ s)) →
  (∀ c s, String.prefix old (String c s) = false → P s → P (String c s)) →
  ∀ s, P s.
Proof.
  intros Hnil Hhit Hmiss s.
  remember (String.length s) as n eqn:Hn. revert s Hn.
  induction n as [n IH] using lt_wf_ind. intros s ->.
  destruct s as [|c s]; [done|].
  destruct (String.prefix old (String c s)) eqn:Hp.
  - destruct (sprefix_inv _ _ Hp) as [r Hr]. rewrite Hr. apply Hhit.
    eapply IH; [|done]. rewrite Hr, slength_app.
    destruct old; [done|]. simpl. lia.
  - apply Hmiss; [done|]. eapply IH; [|done]. simpl. lia.
Qed.

(** A text none of whose characters starts [old] is passed unchanged. *)
Lemma replace_through w s :
  (∀ c t, old = String c t → ∀ i, String.get i w ≠ Some c) →
  Py.replace old new (w +:+ s) = w +:+ Py.replace old new s.
Proof.
  intros H. induction w as [|a w IH]; [done|].
  rewrite !sapp_cons, replace_miss.
  - f_equal. apply IH. intros c t E i. apply (H c t E (S i)).
  - destruct old as [|c t] eqn:E; [done|]. simpl.
    destruct (ascii_dec c a) as [->|]; [|done].
    by destruct (H a t eq_refl O).
Qed.

End Replace.

(** * Characters *)

Lemma chars_cons c s : chars (String c s) = c :: chars s.
Proof. reflexivity. Qed.

Lemma chars_app s t : chars (s +:+ t) = (chars s ++ chars t)%list.
Proof. induction s as [|c s IH]; [done|]. rewrite sapp_cons, !chars_cons, IH. done. Qed.

Lemma get_chars i s c : String.get i s = Some c → c ∈ chars s.
Proof.
  revert i. induction s as [|a s IH]; intros [|i] H; simplify_eq/=.
  - rewrite chars_cons. left.
  - rewrite chars_cons. right. eauto.
Qed.

Lemma get_lt i s : (i < String.length s)%nat → is_Some (String.get i s).
Proof.
  revert i. induction s as [|a s IH]; intros [|i] H; simpl in *; try lia; eauto.
  apply IH. lia.
Qed.

Section ReplaceApp.
Variables old new : string.
Variable h : ascii.
Variable tl : string.
Hypothesis old_eq : old = String h tl.

Lemma old_is_nonempty : old ≠ "".
Proof. by rewrite old_eq. Qed.

(** A text without the first character of [old] is passed unchanged. *)
Lemma replace_inert w s :
  h ∉ chars w →
  Py.replace old new (w +:+ s) = w +:+ Py.replace old new s.
Proof.
  intros H. apply replace_through; [apply old_is_nonempty|].
  intros c t E i G. rewrite old_eq in E. simplify_eq.
  by apply get_chars in G.
Qed.

(** A non-empty text without any character of [old] separates what is
    before it from what is behind it. *)
Lemma replace_barrier x v y :
  v ≠ "" → (∀ c, c ∈ chars v → c ∉ chars old) →
  Py.replace old new (x +:+ v +:+ y) =
  Py.replace old new x +:+ v +:+ Py.replace old new y.
Proof.
  intros Hv Hin. pose proof old_is_nonempty as Hne. induction x as [|s IH|c s Hp IH] using (replace_ind old old_is_nonempty).
  - rewrite replace_nil by done. rewrite !sapp_nil_l. apply replace_inert.
    intros G. apply (Hin _ G). rewrite old_eq. left.
  - rewrite sapp_assoc, !replace_hit, IH, sapp_assoc; done.
  - rewrite sapp_cons, !replace_miss, IH; [done..|].
    destruct (String.prefix old (String c (s +:+ v +:+ y))) eqn:E; [|done].
    rewrite <- sapp_cons in E.
    apply sprefix_app_inv in E as [E|(t2 & c' & E1 & E2)]; [congruence|].
    destruct v as [|a v]; [done|]. rewrite sapp_cons in E2. simpl in E2.
    destruct (ascii_dec c' a) as [->|]; [|done].
    destruct (Hin a); [left|]. rewrite E1, chars_app, chars_cons.
    apply elem_of_app. right. left.
Qed.

(** When its first character does not come back in [old], an occurrence of
    [old] is replaced wherever it stands. *)
Lemma replace_app_hit x y :
  h ∉ chars tl →
  Py.replace old new (x +:+ old +:+ y) =
  Py.replace old new x +:+ new +:+ Py.replace old new y.
Proof.
  intros Hh. pose proof old_is_nonempty as Hne. induction x as [|s IH|c s Hp IH] using (replace_ind old old_is_nonempty).
  - rewrite replace_nil by done. rewrite !sapp_nil_l. by apply replace_hit.
  - rewrite sapp_assoc, !replace_hit, IH, sapp_assoc; done.
  - rewrite sapp_cons, !replace_miss, IH; [done..|].
    destruct (String.prefix old (String c (s +:+ old +:+ y))) eqn:E; [|done].
    rewrite <- sapp_cons in E.
    apply sprefix_app_inv in E as [E|(t2 & c' & E1 & E2)]; [congruence|].
    rewrite old_eq, sapp_cons in E2. simpl in E2.
    destruct (ascii_dec c' h) as [->|]; [|done].
    destruct Hh. rewrite old_eq, sapp_cons in E1. simplify_eq.
    rewrite chars_app, chars_cons. apply elem_of_app. right. left.
Qed.

End ReplaceApp.

(** * One pass of substitution *)

Section Substitute.
Variable t : table.

Lemma token_at_tok x v r : t x = Some v → token_at t (tok x +:+ r) = Some (v, r).
Proof. intros H. unfold tok. rewrite !sapp_cons. simpl. by rewrite H. Qed.

Lemma token_at_inv p v r :
  token_at t p = Some (v, r) → ∃ x, p = tok x +:+ r ∧ t x = Some v.
Proof.
  destruct p as [|c1 [|x [|c3 p]]]; simpl; try done.
  destruct (Ascii.eqb c1 "{") eqn:E1; [|done].
  destruct (Ascii.eqb c3 "}") eqn:E3; [|done]. simpl.
  destruct (t x) as [v'|] eqn:E; [|done]. intros [= -> ->].
  apply Ascii.eqb_eq in E1 as ->. apply Ascii.eqb_eq in E3 as ->. by exists x.
Qed.

Lemma token_at_head c p : c ≠ "{"%char → token_at t (String c p) = None.
Proof.
  intros H. destruct p as [|x [|c3 p]]; simpl; try done.
  apply Ascii.eqb_neq in H. by rewrite H.
Qed.

Lemma substitute_hit x v r :
  t x = Some v → substitute t (tok x +:+ r) = v +:+ substitute t r.
Proof. intros H. unfold tok. rewrite !sapp_cons. simpl. by rewrite H. Qed.

Lemma substitute_miss c p :
  token_at t (String c p) = None →
  substitute t (String c p) = String c (substitute t p).
Proof.
  destruct p as [|x [|c3 p]]; try done.
  cbn [token_at substitute].
  destruct (Ascii.eqb c "{" && Ascii.eqb c3 "}"); [|done].
  by destruct (t x).
Qed.

(** Induction along the pass. *)
Lemma substitute_ind (P : string → Prop) :
  P "" →
  (∀ x v r, t x = Some v → P r → P (tok x +:+ r)) →
  (∀ c p, token_at t (String c p) = None → P p → P (String c p)) →
  ∀ p, P p.
Proof.
  intros Hnil Hhit Hmiss p.
  remember (String.length p) as n eqn:Hn. revert p Hn.
  induction n as [n IH] using lt_wf_ind. intros p ->.
  destruct p as [|c p]; [done|].
  destruct (token_at t (String c p)) as [[v r]|] eqn:E.
  - destruct (token_at_inv _ _ _ E) as (x & Hp & Hx). rewrite Hp.
    apply (Hhit x v r Hx). eapply IH; [|done].
    rewrite Hp, slength_app. simpl. lia.
  - apply Hmiss; [done|]. eapply IH; [|done]. simpl. lia.
Qed.

(** A text without an opening brace is passed unchanged. *)
Lemma substitute_inert w p :
  "{"%char ∉ chars w → substitute t (w +:+ p) = w +:+ substitute t p.
Proof.
  induction w as [|c w IH]; intros H; [done|].
  rewrite chars_cons in H. apply not_elem_of_cons in H as [? ?].
  rewrite !sapp_cons, substitute_miss, IH; [done..|].
  by apply token_at_head.
Qed.

(** The first character of the result, when no text of the table begins
    with it, is the first character of the pattern. *)
Lemma substitute_head_inv c p z :
  (∀ x v, t x = Some v → ∃ a v', v = String a v' ∧ a ≠ c) →
  substitute t p = String c z →
  ∃ p', p = String c p' ∧ token_at t p = None ∧ z = substitute t p'.
Proof.
  intros Hv H. destruct p as [|a p]; [done|].
  destruct (token_at t (String a p)) as [[v r]|] eqn:E.
  - destruct (token_at_inv _ _ _ E) as (x & Hp & Hx).
    rewrite Hp, (substitute_hit _ _ _ Hx) in H.
    destruct (Hv _ _ Hx) as (a' & v' & -> & Hne).
    rewrite sapp_cons in H. congruence.
  - rewrite substitute_miss in H by done. simplify_eq. by exists p.
Qed.

End Substitute.

(** [replace] of one token is the pass for the table of that token. *)
Lemma replace_tok x v p :
  Py.replace (tok x) v p = substitute (tab_single x v) p.
Proof.
  assert (Hne : tok x ≠ "") by done.
  induction p as [|s IH|c s Hp IH] using (replace_ind (tok x) Hne).
  - done.
  - rewrite replace_hit by done. rewrite (substitute_hit _ x v), IH; [done|].
    unfold tab_single. by rewrite Ascii.eqb_refl.
  - rewrite replace_miss by done. rewrite substitute_miss, IH; [done|].
    destruct (token_at (tab_single x v) (String c s)) as [[v' r]|] eqn:E; [|done].
    destruct (token_at_inv _ _ _ _ E) as (y & Hs & Hy).
    unfold tab_single in Hy. destruct (Ascii.eqb y x) eqn:Eyx; [|done].
    apply Ascii.eqb_eq in Eyx as ->. by rewrite Hs, sprefix_app in Hp.
Qed.

Lemma occurs_eq t p :
  occurs t p =
  String.prefix t p || match p with "" => false | String _ p' => occurs t p' end.
Proof. by destruct p. Qed.

Lemma occurs_here t r : occurs t (t +:+ r) = true.
Proof. by rewrite occurs_eq, sprefix_app. Qed.

Lemma occurs_suffix t u r : occurs t (u +:+ r) = false → occurs t r = false.
Proof.
  induction u as [|c u IH]; [done|]. rewrite sapp_cons. simpl.
  intros [_ H]%orb_false_elim. auto.
Qed.

(** * Two passes in a row *)

Section Fusion.
Variables t1 t2 : table.

(** The texts of the first table are not empty and hold no brace. *)
Hypothesis texts1 : ∀ y v,
  t1 y = Some v → v ≠ "" ∧ ("{"%char ∉ chars v) ∧ ("}"%char ∉ chars v).
(** The tokens of the second table are none of the first, and [{{}] is
    none. *)
Hypothesis tokens2 : ∀ x v, t2 x = Some v → t1 x = None ∧ x ≠ "{"%char.

Lemma texts1_head c :
  c = "{"%char ∨ c = "}"%char →
  ∀ x v, t1 x = Some v → ∃ a v', v = String a v' ∧ a ≠ c.
Proof.
  intros Hc x v Hx. destruct (texts1 _ _ Hx) as (Hne & Hl & Hr).
  destruct v as [|a v']; [done|]. exists a, v'. split; [done|].
  rewrite chars_cons in Hl, Hr. intros ->.
  destruct Hc as [-> | ->]; [apply Hl|apply Hr]; left.
Qed.

(** The second pass finds the tokens the first one left and put none
    together, unless a one-character text of the first table, between
    braces of the pattern, spells a token of the second. *)
Lemma substitute_fuse p :
  (∀ y x, t1 y = Some (String x "") → is_Some (t2 x) →
          occurs ("{" +:+ tok y +:+ "}") p = false) →
  substitute t2 (substitute t1 p) = substitute (tab_union t1 t2) p.
Proof.
  induction p as [|x v r Hx IH|c p Hc IH] using (substitute_ind (tab_union t1 t2));
    intros Hfree.
  - done.
  - assert (Hr : ∀ y x, t1 y = Some (String x "") → is_Some (t2 x) →
                 occurs ("{" +:+ tok y +:+ "}") r = false)
      by (intros y x' ? ?; eapply occurs_suffix; eauto).
    rewrite (substitute_hit _ _ _ _ Hx), <- (IH Hr).
    unfold tab_union in Hx. destruct (t1 x) as [v1|] eqn:E1.
    + simplify_eq. rewrite (substitute_hit _ _ _ _ E1).
      apply substitute_inert. by apply (texts1 _ _ E1).
    + destruct (tokens2 _ _ Hx) as [_ Hb].
      unfold tok at 1. rewrite !sapp_cons, sapp_nil_l.
      rewrite (substitute_miss t1); [|simpl; by rewrite E1].
      rewrite (substitute_miss t1) by (by apply token_at_head).
      rewrite (substitute_miss t1) by (by apply token_at_head).
      by apply (substitute_hit t2 x v).
  - assert (Hp : ∀ y x, t1 y = Some (String x "") → is_Some (t2 x) →
                 occurs ("{" +:+ tok y +:+ "}") p = false)
      by (intros y x' ? ?; apply (occurs_suffix _ (String c "")); eauto).
    assert (Hc1 : token_at t1 (String c p) = None).
    { destruct (token_at t1 (String c p)) as [[v r]|] eqn:E; [|done].
      destruct (token_at_inv _ _ _ _ E) as (x & Hs & Hx).
      rewrite Hs, (token_at_tok _ x v) in Hc; [done|].
      unfold tab_union. by rewrite Hx. }
    rewrite (substitute_miss _ _ _ Hc), (substitute_miss _ _ _ Hc1), <- (IH Hp).
    apply substitute_miss.
    destruct (token_at t2 (String c (substitute t1 p))) as [[v2 z]|] eqn:E; [|done].
    exfalso. destruct (token_at_inv _ _ _ _ E) as (x & Hs & Hx).
    unfold tok in Hs. rewrite !sapp_cons, sapp_nil_l in Hs.
    injection Hs as -> Hs.
    destruct (token_at t1 p) as [[v r]|] eqn:E1.
    + destruct (token_at_inv _ _ _ _ E1) as (y & -> & Hy).
      rewrite (substitute_hit _ _ _ _ Hy) in Hs.
      destruct (texts1 _ _ Hy) as (_ & _ & Hr).
      destruct v as [|a [|b v]].
      * by destruct (texts1 _ _ Hy).
      * rewrite sapp_cons, sapp_nil_l in Hs. injection Hs as -> Hs.
        apply substitute_head_inv in Hs as (r' & -> & _);
          [|apply texts1_head; by right].
        specialize (Hfree y x Hy (ltac:(eauto))).
        change (String "{" (tok y +:+ String "}" r'))
          with (("{" +:+ tok y +:+ "}") +:+ r') in Hfree.
        by rewrite occurs_here in Hfree.
      * rewrite !sapp_cons in Hs. injection Hs as -> -> Hs.
        apply Hr. rewrite !chars_cons. right. left.
    + destruct p as [|a p]; [done|].
      rewrite (substitute_miss _ _ _ E1) in Hs. injection Hs as -> Hs.
      apply substitute_head_inv in Hs as (r' & -> & _);
        [|apply texts1_head; by right].
      change (String "{" (String x (String "}" r'))) with (tok x +:+ r') in Hc.
      rewrite (token_at_tok _ x v2) in Hc; [done|].
      unfold tab_union. destruct (tokens2 _ _ Hx) as [-> _]. done.
Qed.

End Fusion.

(** * The monad *)

Lemma bind_ok {A B} (m : M A) (k : A → M B) w a w' :
  m w = (Ok a, w') → bind m k w = k a w'.
Proof. unfold bind. by intros ->. Qed.

Lemma bind_raise {A B} (m : M A) (k : A → M B) w e w' :
  m w = (Raise e, w') → bind m k w = (Raise e, w').
Proof. unfold bind. by intros ->. Qed.


(** * Draws *)

Lemma after_draws_0 w : after_draws 0 w = w.
Proof. destruct w. unfold after_draws, set_rng_pos. simpl. by rewrite Nat.add_0_r. Qed.

Lemma after_draws_add j k w : after_draws j (after_draws k w) = after_draws (k + j) w.
Proof. unfold after_draws, set_rng_pos. simpl. by rewrite Nat.add_assoc. Qed.

Lemma drawn_after population k j w :
  drawn population (after_draws k w) j = drawn population w (k + j).
Proof. unfold drawn. simpl. by rewrite Nat.add_assoc. Qed.

Lemma drawn_string_after population k j len w :
  drawn_string population (after_draws k w) j len =
  drawn_string population w (k + j) len.
Proof.
  revert j. induction len as [|len IH]; intros j; [done|]. simpl.
  by rewrite drawn_after, IH, Nat.add_succ_r.
Qed.

Lemma drawn_in population w k :
  population ≠ "" → drawn population w k ∈ chars population.
Proof.
  intros Hne. unfold drawn.
  destruct (get_lt (rng_draws w (rng_pos w + k) `mod` String.length population)
              population) as [c Hc].
  { apply Nat.mod_upper_bound. by destruct population. }
  rewrite Hc. simpl. by eapply get_chars.
Qed.

Lemma choice_run population w :
  population ≠ "" →
  random.choice population w = (Ok (drawn population w 0), after_draws 1 w).
Proof.
  intros Hne. destruct population as [|c p]; [done|].
  unfold random.choice, bind, random.randbelow, ret, drawn, after_draws.
  by rewrite Nat.add_0_r, Nat.add_1_r.
Qed.

Lemma choices_nat_run population k w :
  population ≠ "" →
  random.choices_nat population k w =
  (Ok (drawn_string population w 0 k), after_draws k w).
Proof.
  intros Hne. revert w. induction k as [|k IH]; intros w.
  - simpl. unfold ret. by rewrite after_draws_0.
  - simpl. erewrite bind_ok by (by apply choice_run).
    erewrite bind_ok by apply IH. unfold ret.
    by rewrite drawn_string_after, after_draws_add.
Qed.

Lemma drawn_string_length population w k len :
  String.length (drawn_string population w k len) = len.
Proof. revert k. induction len as [|len IH]; intros k; simpl; [done|]. by rewrite IH. Qed.

Lemma drawn_string_chars population w k len c :
  population ≠ "" →
  c ∈ chars (drawn_string population w k len) → c ∈ chars population.
Proof.
  intros Hne. revert k. induction len as [|len IH]; intros k; simpl.
  - by intros ?%elem_of_nil.
  - rewrite chars_cons. intros [->|H]%elem_of_cons; [by apply drawn_in|eauto].
Qed.

(** Membership in a given text, settled by evaluation. *)
Ltac by_evaluation := apply (bool_decide_unpack _); vm_compute; exact I.

(** * The text of a number *)

Lemma string_of_uint_chars u c :
  c ∈ chars (NilEmpty.string_of_uint u) → c ∈ chars "0123456789".
Proof.
  induction u as [|u IH|u IH|u IH|u IH|u IH|u IH|u IH|u IH|u IH|u IH];
    simpl; intros H; [by apply elem_of_nil in H|..];
    rewrite chars_cons in H; apply elem_of_cons in H as [->|H];
    solve [by_evaluation | exact (IH H)].
Qed.

Lemma str_chars i c : c ∈ chars (Py.str i) → c ∈ chars "-0123456789".
Proof.
  assert (Hu : ∀ u, c ∈ chars (NilZero.string_of_uint u) → c ∈ chars "-0123456789").
  { intros u Hc. rewrite chars_cons. right.
    destruct u; try exact (string_of_uint_chars _ _ Hc).
    simpl in Hc. rewrite chars_cons in Hc.
    apply elem_of_cons in Hc as [->|Hc]; [by_evaluation|].
    by apply elem_of_nil in Hc. }
  unfold Py.str. destruct (Z.to_int i) as [u|u]; simpl; [by apply Hu|].
  rewrite chars_cons. intros H. apply elem_of_cons in H as [->|H]; [|exact (Hu u H)].
  rewrite chars_cons. left.
Qed.

(** [str] writes a number in decimal: read as such, the text gives the
    number back. *)
Lemma str_decimal i :
  Z.of_int <$> NilZero.int_of_string (Py.str i) = Some i.
Proof.
  unfold Py.str. rewrite NilZero.isi.
  - simpl. by rewrite DecimalZ.of_to.
  - intros H. assert (E : i = 0)
      by (apply (f_equal Z.of_int) in H; by rewrite DecimalZ.of_to in H).
    subst i. discriminate H.
  - intros H. assert (E : i = 0)
      by (apply (f_equal Z.of_int) in H; by rewrite DecimalZ.of_to in H).
    subst i. discriminate H.
Qed.

Lemma str_nonempty i : Py.str i ≠ "".
Proof.
  unfold Py.str. destruct (Z.to_int i) as [u|u]; simpl; [|done].
  by destruct u.
Qed.

Lemma str_inert i c : c ∈ chars "{}nads" → c ∉ chars (Py.str i).
Proof.
  intros Hc Hs%str_chars. revert Hs.
  repeat (rewrite chars_cons in Hc; apply elem_of_cons in Hc as [->|Hc];
          [by_evaluation|]).
  by apply elem_of_nil in Hc.
Qed.

(** * [apply_pattern] *)

(** The four replacements, in the order of the source, with the three
    characters of the next three draws. *)
Lemma apply_pattern_run self pattern seed w :
  apply_pattern self pattern seed w =
  (Ok (Py.replace "{s}" (String (drawn_symbol w) "")
         (Py.replace "{d}" (String (drawn_digit w) "")
            (Py.replace "{a}" (String (drawn_letter w) "")
               (Py.replace "{n}" (Py.str seed) pattern)))),
   after_draws 3 w).
Proof.
  unfold apply_pattern.
  erewrite bind_ok by (by apply choice_run).
  erewrite bind_ok by (by apply choice_run).
  erewrite bind_ok by (by apply choice_run).
  unfold ret, drawn_symbol, drawn_digit, drawn_letter.
  by rewrite !after_draws_add, !drawn_after.
Qed.

Lemma drawn_letter_in w : drawn_letter w ∈ chars Py.ascii_letters.
Proof. by apply drawn_in. Qed.

Lemma drawn_digit_in w : drawn_digit w ∈ chars Py.digits.
Proof. by apply drawn_in. Qed.

Lemma drawn_symbol_in w : drawn_symbol w ∈ chars Py.punctuation.
Proof. by apply drawn_in. Qed.

Lemma letters_no_brace :
  Forall (λ c, c ≠ "{"%char ∧ c ≠ "}"%char) (chars Py.ascii_letters).
Proof. by_evaluation. Qed.

Lemma digits_no_brace :
  Forall (λ c, c ≠ "{"%char ∧ c ≠ "}"%char ∧ c ≠ "s"%char) (chars Py.digits).
Proof. by_evaluation. Qed.

Lemma tab_single_Some x v y u : tab_single x v y = Some u → y = x ∧ u = v.
Proof.
  unfold tab_single. destruct (Ascii.eqb y x) eqn:E; [|done].
  apply Ascii.eqb_eq in E. by intros [= <-].
Qed.

Lemma tab_union_Some t1 t2 y u :
  tab_union t1 t2 y = Some u → t1 y = Some u ∨ (t1 y = None ∧ t2 y = Some u).
Proof. unfold tab_union. destruct (t1 y); [left|right]; done. Qed.

Lemma one_char_no_brace (c : ascii) :
  c ≠ "{"%char → c ≠ "}"%char →
  String c "" ≠ "" ∧ ("{"%char ∉ chars (String c "")) ∧ ("}"%char ∉ chars (String c "")).
Proof.
  intros H1 H2. split; [done|]. rewrite chars_cons.
  split; intros [?|H]%elem_of_cons; try done; by apply elem_of_nil in H.
Qed.

Lemma str_no_brace i :
  Py.str i ≠ "" ∧ ("{"%char ∉ chars (Py.str i)) ∧ ("}"%char ∉ chars (Py.str i)).
Proof.
  split; [apply str_nonempty|]. split; apply str_inert; by_evaluation.
Qed.

Lemma str_one_char i x : Py.str i = String x "" → x ∉ chars "{}nads".
Proof.
  intros E H. apply (str_inert i) in H. apply H. rewrite E, chars_cons. left.
Qed.

(** The four replacements in a row amount to one pass with the table of the
    expansion, unless the pattern holds an [{a}] between braces and the
    letter drawn makes of it the token [{d}] or [{s}]. *)
Lemma replace_four_substitute pattern seed w :
  occurs "{{a}}" pattern = false
  ∨ (drawn_letter w ≠ "d"%char ∧ drawn_letter w ≠ "s"%char) →
  Py.replace "{s}" (String (drawn_symbol w) "")
    (Py.replace "{d}" (String (drawn_digit w) "")
       (Py.replace "{a}" (String (drawn_letter w) "")
          (Py.replace "{n}" (Py.str seed) pattern))) =
  substitute (expansion_table (Py.str seed) (drawn_letter w) (drawn_digit w)
                (drawn_symbol w)) pattern.
Proof.
  intros Hfree.
  pose proof (drawn_letter_in w) as Ha. pose proof (drawn_digit_in w) as Hd.
  pose proof letters_no_brace as Fa. pose proof digits_no_brace as Fd.
  rewrite Forall_forall in Fa, Fd.
  destruct (Fa _ Ha) as [Ha1 Ha2]. destruct (Fd _ Hd) as (Hd1 & Hd2 & Hd3).
  change "{n}" with (tok "n"). change "{a}" with (tok "a").
  change "{d}" with (tok "d"). change "{s}" with (tok "s").
  rewrite !replace_tok. unfold expansion_table.
  rewrite (substitute_fuse (tab_single "n" (Py.str seed))).
  2:{ intros y v H. apply tab_single_Some in H as [-> ->]. apply str_no_brace. }
  2:{ by intros x v [-> ->]%tab_single_Some. }
  2:{ intros y x H [v Hx].
      apply tab_single_Some in H as [-> E]; apply tab_single_Some in Hx as [-> _].
      symmetry in E. apply str_one_char in E. destruct E. by_evaluation. }
  rewrite (substitute_fuse (tab_union (tab_single "n" (Py.str seed)) _)).
  2:{ intros y v [H|[_ H]]%tab_union_Some;
        apply tab_single_Some in H as [-> ->];
        auto using str_no_brace, one_char_no_brace. }
  2:{ by intros x v [-> ->]%tab_single_Some. }
  2:{ intros y x [H|[_ H]]%tab_union_Some [v Hx];
        apply tab_single_Some in H as [-> E]; apply tab_single_Some in Hx as [-> _].
      - symmetry in E. apply str_one_char in E. destruct E. by_evaluation.
      - injection E as E. destruct Hfree as [?|[? _]]; [done|congruence]. }
  apply substitute_fuse.
  - intros y v [[H|[_ H]]%tab_union_Some|[_ H]]%tab_union_Some;
      apply tab_single_Some in H as [-> ->];
      auto using str_no_brace, one_char_no_brace.
  - by intros x v [-> ->]%tab_single_Some.
  - intros y x [[H|[_ H]]%tab_union_Some|[_ H]]%tab_union_Some [v Hx];
      apply tab_single_Some in H as [-> E]; apply tab_single_Some in Hx as [-> _].
    + symmetry in E. apply str_one_char in E. destruct E. by_evaluation.
    + injection E as E. destruct Hfree as [?|[_ ?]]; [done|congruence].
    + injection E as E. congruence.
Qed.

Lemma str_not_in_token seed (x : ascii) c :
  x ∈ chars "nads" → c ∈ chars (Py.str seed) → c ∉ chars (tok x).
Proof.
  intros Hx Hc Ht. apply (str_inert seed c); [|done]. clear Hc.
  unfold tok in Ht.
  rewrite chars_cons in Ht; apply elem_of_cons in Ht as [->|Ht]; [by_evaluation|].
  rewrite chars_cons in Ht; apply elem_of_cons in Ht as [->|Ht].
  { rewrite !chars_cons. do 2 right. done. }
  rewrite chars_cons in Ht; apply elem_of_cons in Ht as [->|Ht]; [by_evaluation|].
  by apply elem_of_nil in Ht.
Qed.

(** An [{n}] in a pattern is replaced by the text of the seed, whatever
    stands before and behind it and whatever is put for the other tokens. *)
Lemma replace_four_seed pre post n a d s :
  (∀ x c, x ∈ chars "nads" → c ∈ chars n → c ∉ chars (tok x)) → n ≠ "" →
  let expand p :=
    Py.replace "{s}" s (Py.replace "{d}" d (Py.replace "{a}" a (Py.replace "{n}" n p))) in
  expand (pre +:+ "{n}" +:+ post) = expand pre +:+ n +:+ expand post.
Proof.
  intros Hn Hne expand. unfold expand.
  rewrite (replace_app_hit "{n}" n "{" "n}" eq_refl) by by_evaluation.
  rewrite (replace_barrier "{a}" a "{" "a}" eq_refl)
    by (try done; intros c; apply (Hn "a"%char); by_evaluation).
  rewrite (replace_barrier "{d}" d "{" "d}" eq_refl)
    by (try done; intros c; apply (Hn "d"%char); by_evaluation).
  rewrite (replace_barrier "{s}" s "{" "s}" eq_refl)
    by (try done; intros c; apply (Hn "s"%char); by_evaluation).
  done.
Qed.

(** C3, as amended. [apply_pattern] replaces, in this order, every [{n}] by
    the text of the seed, every [{a}] by one letter, every [{d}] by one
    digit and every [{s}] by one symbol, each drawn once for the whole
    expansion. Unless the pattern holds an [{a}] between a literal opening
    and a literal closing brace and the letter drawn is [d] or [s], this is
    one pass over the pattern in which every token gets its text, the same
    at every occurrence, and every other character, brace or not, stays as
    it is. *)
Theorem apply_pattern_one_pass (self : MassPassGen) (pattern : string) (seed : Z)
    (w : world) :
  apply_pattern self pattern seed w =
    (Ok (Py.replace "{s}" (String (drawn_symbol w) "")
           (Py.replace "{d}" (String (drawn_digit w) "")
              (Py.replace "{a}" (String (drawn_letter w) "")
                 (Py.replace "{n}" (Py.str seed) pattern)))),
     after_draws 3 w)
  ∧ drawn_letter w ∈ chars Py.ascii_letters
  ∧ drawn_digit w ∈ chars Py.digits
  ∧ drawn_symbol w ∈ chars Py.punctuation
  ∧ (occurs "{{a}}" pattern = false
     ∨ (drawn_letter w ≠ "d"%char ∧ drawn_letter w ≠ "s"%char) →
     fst (apply_pattern self pattern seed w) =
     Ok (substitute (expansion_table (Py.str seed) (drawn_letter w)
                       (drawn_digit w) (drawn_symbol w)) pattern)).
Proof.
  split; [apply apply_pattern_run|].
  split; [apply drawn_letter_in|]. split; [apply drawn_digit_in|].
  split; [apply drawn_symbol_in|].
  intros H. rewrite apply_pattern_run. simpl. f_equal.
  by apply replace_four_substitute.
Qed.

(** A pattern with every kind of token, an unknown token and braces around
    an [{n}], expanded with the seed 7 and the draws 3, 5 and 7. *)
Lemma apply_pattern_one_pass_witness :
  occurs "{{a}}" "id{n}-{a}{a}-{d}{x}{s}{d}{{n}}" = false
  ∧ fst (apply_pattern (__init__ 6 12) "id{n}-{a}{a}-{d}{x}{s}{d}{{n}}" 7
           (quiet_world (λ i, 3 + 2 * i)%nat))
    = Ok (substitute (expansion_table "7" "d" "5" "(")
            "id{n}-{a}{a}-{d}{x}{s}{d}{{n}}")
  ∧ substitute (expansion_table "7" "d" "5" "(")
      "id{n}-{a}{a}-{d}{x}{s}{d}{{n}}" = "id7-dd-5{x}(5{7}".
Proof.
  split; [reflexivity|]. split; [|reflexivity].
  apply (apply_pattern_one_pass (__init__ 6 12)
           "id{n}-{a}{a}-{d}{x}{s}{d}{{n}}" 7
           (quiet_world (λ i, 3 + 2 * i)%nat)).
  left. reflexivity.
Defined.

(** The pattern [{{a}}] with the seed 0 and three draws of 3: the letter is
    [d], the [{d}] it forms with the braces becomes the digit [3], and the
    braces of the pattern are gone, where one pass gives [{d}]. *)
Lemma apply_pattern_cascade :
  fst (apply_pattern (__init__ 6 12) "{{a}}" 0 (quiet_world (λ _, 3%nat)))
    ≠ Ok (substitute
            (expansion_table (Py.str 0)
               (drawn_letter (quiet_world (λ _, 3%nat)))
               (drawn_digit (quiet_world (λ _, 3%nat)))
               (drawn_symbol (quiet_world (λ _, 3%nat)))) "{{a}}")
  ∧ fst (apply_pattern (__init__ 6 12) "{{a}}" 0 (quiet_world (λ _, 3%nat)))
    = Ok "3"
  ∧ substitute (expansion_table (Py.str 0) "d" "3" "$") "{{a}}" = "{d}"
  ∧ drawn_letter (quiet_world (λ _, 3%nat)) = "d"%char
  ∧ drawn_digit (quiet_world (λ _, 3%nat)) = "3"%char
  ∧ drawn_symbol (quiet_world (λ _, 3%nat)) = "$"%char.
Proof. vm_compute. repeat split. discriminate. Qed.

(** C8. Whatever is drawn, the expansion of [user{n}] with the seed 5 is
    [user5]; and in every pattern an [{n}] is replaced by the text [str]
    gives of the seed, between the expansions of what stands before it and
    of what stands behind it; this text is the seed in decimal. *)
Theorem apply_pattern_seed :
  (∀ self w, fst (apply_pattern self "user{n}" 5 w) = Ok "user5")
  ∧ (∀ self pre post seed w,
       ∃ pre' post',
         fst (apply_pattern self pre seed w) = Ok pre'
         ∧ fst (apply_pattern self post seed w) = Ok post'
         ∧ fst (apply_pattern self (pre +:+ "{n}" +:+ post) seed w)
           = Ok (pre' +:+ Py.str seed +:+ post'))
  ∧ (∀ seed, Z.of_int <$> NilZero.int_of_string (Py.str seed) = Some seed).
Proof.
  split; [|split].
  - intros self w. by rewrite apply_pattern_run.
  - intros self pre post seed w. rewrite !apply_pattern_run. simpl.
    eexists _, _. split; [done|]. split; [done|]. f_equal.
    apply replace_four_seed; [|apply str_nonempty].
    intros x c. apply str_not_in_token.
  - apply str_decimal.
Qed.

(** * Worlds *)

Lemma drawn_string_ext population w1 w2 k len :
  rng_draws w1 = rng_draws w2 → rng_pos w1 = rng_pos w2 →
  drawn_string population w1 k len = drawn_string population w2 k len.
Proof.
  intros Hd Hp. revert k. induction len as [|len IH]; intros k; [done|].
  simpl. rewrite IH. unfold drawn. by rewrite Hd, Hp.
Qed.

(** * The texts of a given length *)

Lemma length_bind_const {A B} (f : A → list B) (l : list A) m :
  (∀ y, length (f y) = m) → length (l ≫= f) = (length l * m)%nat.
Proof.
  intros Hf. induction l as [|y l IH]; [done|].
  rewrite bind_cons, length_app, IH, Hf. simpl. lia.
Qed.

Lemma length_chars s : length (chars s) = String.length s.
Proof. induction s as [|c s IH]; [done|]. rewrite chars_cons. simpl. by rewrite IH. Qed.

Lemma all_strings_length population len :
  length (all_strings population len) = (String.length population ^ len)%nat.
Proof.
  induction len as [|len IH]; [done|]. simpl all_strings.
  rewrite (length_bind_const _ _ (String.length population ^ len)%nat).
  - rewrite length_chars. simpl. lia.
  - intros c. rewrite (length_bind_const _ _ 1%nat); [lia|done].
Qed.

Lemma all_strings_elem population s :
  (∀ c, c ∈ chars s → c ∈ chars population) →
  s ∈ all_strings population (String.length s).
Proof.
  induction s as [|a s IH]; intros H; [by left|].
  simpl. apply list_elem_of_bind. exists a. split.
  - apply list_elem_of_bind. exists s. split; [by left|].
    apply IH. intros c Hc. apply H. rewrite chars_cons. by right.
  - apply H. rewrite chars_cons. left.
Qed.

Lemma size_list_to_set_le (l : list string) :
  (size (list_to_set l : gset string) ≤ length l)%nat.
Proof.
  induction l as [|x l IH]; [done|]. simpl.
  rewrite size_union_alt, size_singleton.
  assert (Hs : list_to_set l ∖ {[x]} ⊆ (list_to_set l : gset string))
    by apply subseteq_difference_l, reflexivity.
  apply subseteq_size in Hs. lia.
Qed.

(** A set of texts of one length over one alphabet has at most as many
    members as there are such texts. *)
Lemma size_bounded population (len : nat) (P : gset string) :
  (∀ p, p ∈ P → String.length p = len ∧ ∀ c, c ∈ chars p → c ∈ chars population) →
  (size P ≤ String.length population ^ len)%nat.
Proof.
  intros H. rewrite <- all_strings_length.
  etrans; [|apply size_list_to_set_le]. apply subseteq_size.
  intros p Hp. apply elem_of_list_to_set.
  destruct (H p Hp) as [<- Hc]. by apply all_strings_elem.
Qed.

(** * The sampling loop *)

Lemma advanced_trans j k w1 w2 w3 :
  advanced j w1 w2 → advanced k w2 w3 → advanced (j + k) w1 w3.
Proof.
  unfold advanced.
  intros (-> & -> & -> & -> & -> & -> & ->) (-> & -> & -> & -> & -> & -> & ->).
  repeat split; lia.
Qed.

Lemma sample_loop_done fuel self count L (P : gset string) w :
  ¬ Z.of_nat (size P) < count →
  sample_loop fuel self count L P w = (Ok P, w).
Proof.
  intros H. apply Z.ltb_nlt in H. destruct fuel; simpl; by rewrite H.
Qed.

Lemma sample_loop_0 self count L (P : gset string) w :
  Z.of_nat (size P) < count →
  sample_loop 0 self count L P w = (OutOfFuel, w).
Proof. intros H. apply Z.ltb_lt in H. simpl. by rewrite H. Qed.

Lemma sample_loop_step fuel self count L (P : gset string) w :
  charset self ≠ "" → Z.of_nat (size P) < count →
  ∃ w1,
    sample_loop (S fuel) self count L P w =
    sample_loop fuel self count L
      ({[drawn_string (charset self) w 0 (Z.to_nat L)]} ∪ P) w1
    ∧ advanced (Z.to_nat L) w w1.
Proof.
  intros Hne H. apply Z.ltb_lt in H. cbn [sample_loop]. rewrite H.
  unfold random.choices.
  erewrite bind_ok by (by apply choices_nat_run).
  set (P1 := {[drawn_string (charset self) w 0 (Z.to_nat L)]} ∪ P).
  destruct (Z.of_nat (size P1) `mod` 100000 =? 0).
  - eexists. split; [by erewrite bind_ok by reflexivity|].
    by repeat split.
  - eexists. split; [by erewrite bind_ok by reflexivity|].
    by repeat split.
Qed.

(** The loop never ends with an exception. *)
Lemma sample_loop_no_raise fuel self count L (P : gset string) w e w' :
  charset self ≠ "" →
  sample_loop fuel self count L P w ≠ (Raise e, w').
Proof.
  intros Hne. revert P w. induction fuel as [|fuel IH]; intros P w.
  - destruct (decide (Z.of_nat (size P) < count)).
    + by rewrite sample_loop_0.
    + by rewrite sample_loop_done.
  - destruct (decide (Z.of_nat (size P) < count)).
    + destruct (sample_loop_step fuel self count L P w) as (w1 & -> & _); auto.
    + by rewrite sample_loop_done.
Qed.

(** What the loop hands back: exactly [count] texts, each of [L] characters
    of the charset; and the world moved on by draws and printing only. *)
Lemma sample_loop_ok fuel self count L (P P' : gset string) w w' :
  charset self ≠ "" →
  Z.of_nat (size P) ≤ count →
  (∀ p, p ∈ P → String.length p = Z.to_nat L
                ∧ ∀ c, c ∈ chars p → c ∈ chars (charset self)) →
  sample_loop fuel self count L P w = (Ok P', w') →
  Z.of_nat (size P') = count
  ∧ (∀ p, p ∈ P' → String.length p = Z.to_nat L
                   ∧ ∀ c, c ∈ chars p → c ∈ chars (charset self))
  ∧ ∃ k, advanced k w w'.
Proof.
  intros Hne. revert P w. induction fuel as [|fuel IH]; intros P w Hle HP Hrun.
  - destruct (decide (Z.of_nat (size P) < count)).
    + by rewrite sample_loop_0 in Hrun.
    + rewrite sample_loop_done in Hrun by done. simplify_eq.
      split; [lia|]. split; [done|]. exists O. unfold advanced.
      rewrite Nat.add_0_r. done.
  - destruct (decide (Z.of_nat (size P) < count)).
    + destruct (sample_loop_step fuel self count L P w) as (w1 & E & Hw1); auto.
      rewrite E in Hrun. apply IH in Hrun as (? & ? & k & Hk).
      * split; [done|]. split; [done|]. eexists. by eapply advanced_trans.
      * rewrite size_union_alt, size_singleton.
        assert (Hs : P ∖ {[drawn_string (charset self) w 0 (Z.to_nat L)]} ⊆ P)
          by apply subseteq_difference_l, reflexivity.
        apply subseteq_size in Hs. lia.
      * intros p [->%elem_of_singleton|Hp]%elem_of_union; [|by auto].
        split; [apply drawn_string_length|].
        intros c. by apply drawn_string_chars.
    + rewrite sample_loop_done in Hrun by done. simplify_eq.
      split; [lia|]. split; [done|]. exists O. unfold advanced.
      rewrite Nat.add_0_r. done.
Qed.

Lemma drawn_string_advanced population j w w1 k len :
  advanced j w w1 →
  drawn_string population w1 k len = drawn_string population w (j + k) len.
Proof.
  intros (Hd & Hp & _). rewrite <- drawn_string_after.
  apply drawn_string_ext; [done|]. by rewrite Hp.
Qed.

Lemma samples_S population len w w1 n :
  advanced len w w1 →
  samples population len w (S n) =
  drawn_string population w 0 len :: samples population len w1 n.
Proof.
  intros Hw. unfold samples. rewrite <- cons_seq, fmap_cons. f_equal.
  rewrite <- fmap_S_seq, <- list_fmap_compose.
  apply list_fmap_ext. intros _ i _. simpl.
  by rewrite (drawn_string_advanced _ _ _ _ _ _ Hw).
Qed.

(** The loop comes to an end once the draws have brought enough different
    texts. *)
Lemma sample_loop_returns fuel self count L (P : gset string) w :
  charset self ≠ "" →
  count ≤ Z.of_nat (size (P ∪ list_to_set (samples (charset self) (Z.to_nat L) w fuel))) →
  ∃ P' w', sample_loop fuel self count L P w = (Ok P', w').
Proof.
  intros Hne. revert P w. induction fuel as [|fuel IH]; intros P w H.
  - destruct (decide (Z.of_nat (size P) < count)).
    + exfalso. unfold samples in H. simpl in H.
      rewrite (right_id_L ∅ (∪)) in H. lia.
    + rewrite sample_loop_done by done. eauto.
  - destruct (decide (Z.of_nat (size P) < count)).
    + destruct (sample_loop_step fuel self count L P w) as (w1 & -> & Hw1); auto.
      apply IH. rewrite (samples_S _ _ _ _ _ Hw1) in H. simpl in H.
      by rewrite (assoc_L (∪)), (comm_L (∪) P) in H.
    + rewrite sample_loop_done by done. eauto.
Qed.

(** The members of the set are texts of [L] characters of the charset,
    whatever [count] is. *)
Lemma sample_loop_members fuel self count L (P P' : gset string) w w' :
  charset self ≠ "" →
  (∀ p, p ∈ P → String.length p = Z.to_nat L
                ∧ ∀ c, c ∈ chars p → c ∈ chars (charset self)) →
  sample_loop fuel self count L P w = (Ok P', w') →
  ∀ p, p ∈ P' → String.length p = Z.to_nat L
                ∧ ∀ c, c ∈ chars p → c ∈ chars (charset self).
Proof.
  intros Hne. revert P w. induction fuel as [|fuel IH]; intros P w HP Hrun.
  - destruct (decide (Z.of_nat (size P) < count)).
    + by rewrite sample_loop_0 in Hrun.
    + rewrite sample_loop_done in Hrun by done. by simplify_eq.
  - destruct (decide (Z.of_nat (size P) < count)).
    + destruct (sample_loop_step fuel self count L P w) as (w1 & E & Hw1); auto.
      rewrite E in Hrun. eapply IH; [|done].
      intros p [->%elem_of_singleton|Hp]%elem_of_union; [|by auto].
      split; [apply drawn_string_length|].
      intros c. by apply drawn_string_chars.
    + rewrite sample_loop_done in Hrun by done. by simplify_eq.
Qed.

(** The loop looks at the charset of [self] only. *)
Lemma sample_loop_charset fuel self self' count L (P : gset string) w :
  charset self = charset self' →
  sample_loop fuel self count L P w = sample_loop fuel self' count L P w.
Proof.
  intros Hc. revert P w. induction fuel as [|fuel IH]; intros P w; [done|].
  cbn [sample_loop]. rewrite Hc.
  destruct (Z.of_nat (size P) <? count); [|done].
  unfold bind at 1 3.
  destruct (random.choices (charset self') L w) as [[pwd| |] w1]; [|done..].
  unfold bind.
  destruct (if Z.of_nat (size ({[pwd]} ∪ P)) `mod` 100000 =? 0 then _ else _)
    as [[[]| |] w2]; [|done..].
  apply IH.
Qed.

(** * [generate_random_passwords] *)

Lemma print_run text w :
  print text w = (Ok tt, set_stdout (stdout w ++ [text])%list w).
Proof. reflexivity. Qed.

Lemma print_advanced text w : advanced 0 w (set_stdout (stdout w ++ [text])%list w).
Proof. unfold advanced. simpl. rewrite Nat.add_0_r. done. Qed.

(** A non-zero fixed length is the target length; no draw is spent on it. *)
Lemma generate_random_passwords_fixed fuel self count l :
  l ≠ 0 →
  generate_random_passwords fuel self count (Some l) = sample_with fuel self count l.
Proof.
  intros H. unfold generate_random_passwords, truthy_int.
  apply Z.eqb_neq in H. rewrite H. reflexivity.
Qed.

(** Without a fixed length, or with the fixed length 0, the target length
    is drawn once from the range, before anything else. *)
Lemma generate_random_passwords_ranged fuel self count length w :
  truthy_int length = false → min_len self ≤ max_len self →
  generate_random_passwords fuel self count length w =
  sample_with fuel self count (chosen_length self w) (after_draws 1 w).
Proof.
  intros H Hle. unfold generate_random_passwords. rewrite H.
  unfold random.randint. destruct (max_len self <? min_len self) eqn:E.
  { apply Z.ltb_lt in E. lia. }
  unfold bind at 1. unfold bind at 1. unfold random.randbelow, ret, after_draws.
  by rewrite Nat.add_1_r.
Qed.

Lemma chosen_length_range self w :
  min_len self ≤ max_len self →
  min_len self ≤ chosen_length self w ≤ max_len self.
Proof.
  intros H. unfold chosen_length.
  pose proof (Nat.mod_upper_bound (rng_draws w (rng_pos w))
                (Z.to_nat (max_len self - min_len self + 1))). lia.
Qed.

Lemma sample_with_ok fuel self count t w res w' :
  charset self ≠ "" → 0 ≤ count →
  sample_with fuel self count t w = (Ok res, w') →
  Z.of_nat (length res) = count ∧ NoDup res
  ∧ (∀ p, p ∈ res → String.length p = Z.to_nat t
                    ∧ ∀ c, c ∈ chars p → c ∈ chars (charset self))
  ∧ ∃ k, advanced k w w'.
Proof.
  intros Hne Hc. unfold sample_with.
  erewrite bind_ok by apply print_run.
  unfold bind.
  destruct (sample_loop _ _ _ _ _ _) as [[P'| |] w1] eqn:E; try done.
  unfold ret. intros [= <- <-].
  apply sample_loop_ok in E as (Hsize & HP & k & Hk); [|done| |].
  - split; [done|]. split; [apply NoDup_elements|].
    split; [intros p Hp; apply HP; by apply elem_of_elements|].
    exists k. eapply (advanced_trans 0); [apply print_advanced|done].
  - rewrite size_empty. lia.
  - intros p Hp. by apply not_elem_of_empty in Hp.
Qed.

Lemma sample_with_no_raise fuel self count t w e w' :
  charset self ≠ "" → sample_with fuel self count t w ≠ (Raise e, w').
Proof.
  intros Hne. unfold sample_with. erewrite bind_ok by apply print_run.
  unfold bind.
  destruct (sample_loop _ _ _ _ _ _) as [[P'| |] w1] eqn:E; try done.
  by apply sample_loop_no_raise in E.
Qed.

Lemma sample_with_returns fuel self count t w :
  charset self ≠ "" →
  count ≤ Z.of_nat (size (list_to_set (samples (charset self) (Z.to_nat t) w fuel)
                            : gset string)) →
  ∃ res w', sample_with fuel self count t w = (Ok res, w').
Proof.
  intros Hne H. unfold sample_with. erewrite bind_ok by apply print_run.
  destruct (sample_loop_returns fuel self count t ∅
              (set_stdout (stdout w ++ ["[*] Generating " +:+ Py.str count +:+ " random passwords..."])%list w))
    as (P' & w' & E); [done| |].
  - rewrite (left_id_L ∅ (∪)).
    replace (samples (charset self) (Z.to_nat t) (set_stdout _ w) fuel)
      with (samples (charset self) (Z.to_nat t) w fuel); [done|].
    unfold samples. apply list_fmap_ext. intros _ i _.
    by apply drawn_string_ext.
  - erewrite bind_ok by apply E. unfold ret. eauto.
Qed.

Lemma init_charset mn mx : charset (__init__ mn mx) ≠ "".
Proof. done. Qed.

Lemma init_charset_length mn mx : String.length (charset (__init__ mn mx)) = 94%nat.
Proof. reflexivity. Qed.

Lemma sample_with_members fuel self count t w res w' :
  charset self ≠ "" →
  sample_with fuel self count t w = (Ok res, w') →
  ∀ p, p ∈ res → String.length p = Z.to_nat t
                 ∧ ∀ c, c ∈ chars p → c ∈ chars (charset self).
Proof.
  intros Hne. unfold sample_with.
  erewrite bind_ok by apply print_run. unfold bind.
  destruct (sample_loop _ _ _ _ _ _) as [[P'| |] w1] eqn:E; try done.
  unfold ret. intros H p Hp. injection H as <- <-.
  rewrite elem_of_elements in Hp.
  refine (sample_loop_members _ _ _ _ ∅ P' _ w1 Hne _ E p Hp).
  intros q Hq. by apply not_elem_of_empty in Hq.
Qed.

Lemma sample_with_charset fuel self self' count t w :
  charset self = charset self' →
  sample_with fuel self count t w = sample_with fuel self' count t w.
Proof.
  intros Hc. unfold sample_with. erewrite !bind_ok by apply print_run.
  unfold bind. by rewrite (sample_loop_charset _ _ _ _ _ _ _ Hc).
Qed.

(** More texts asked for than there are: the sampler never answers. *)
Lemma sample_with_stalls fuel self count t w :
  charset self ≠ "" → 0 ≤ t →
  Z.of_nat (String.length (charset self)) ^ t < count →
  fst (sample_with fuel self count t w) = OutOfFuel.
Proof.
  intros Hne Ht Hlt.
  destruct (sample_with fuel self count t w) as [[res|e|] w'] eqn:E; [| |done].
  - exfalso. apply sample_with_ok in E as (Hlen & Hnd & Hres & _); [|done|].
    + pose proof (size_bounded (charset self) (Z.to_nat t) (list_to_set res)) as Hb.
      rewrite size_list_to_set in Hb by done.
      assert (length res ≤ String.length (charset self) ^ Z.to_nat t)%nat as Hle.
      { apply Hb. intros p Hp%elem_of_list_to_set. by apply Hres. }
      apply Nat2Z.inj_le in Hle. rewrite Nat2Z.inj_pow, Z2Nat.id in Hle by done.
      lia.
    + assert (0 < Z.of_nat (String.length (charset self)) ^ t); [|lia].
      apply Z.pow_pos_nonneg; [|done]. destruct (charset self); [done|simpl; lia].
  - by apply sample_with_no_raise in E.
Qed.

(** C1, as amended. [generate_random_passwords] with a [count] of at least 1
    and a fixed length [L] of at least 1: whenever it returns, the list has
    exactly [count] members, all different, each of [L] characters of the
    charset, so the loop never ends early; it returns as soon as the texts
    drawn within the fuel include [count] different ones; it never returns
    when [count] is more than the [94 ^ L] texts there are; and it never
    raises. *)
Theorem generate_random_passwords_result (fuel : nat) (mn mx count L : Z)
    (w : world) :
  1 ≤ count → 1 ≤ L →
  (∀ res w',
     generate_random_passwords fuel (__init__ mn mx) count (Some L) w = (Ok res, w') →
     Z.of_nat (length res) = count ∧ NoDup res
     ∧ ∀ pwd, pwd ∈ res →
         Py.len pwd = L
         ∧ ∀ c, c ∈ chars pwd → c ∈ chars (charset (__init__ mn mx)))
  ∧ (count ≤ Z.of_nat (size (list_to_set
                (samples (charset (__init__ mn mx)) (Z.to_nat L) w fuel)
                : gset string)) →
     ∃ res w',
       generate_random_passwords fuel (__init__ mn mx) count (Some L) w = (Ok res, w'))
  ∧ (94 ^ L < count →
     fst (generate_random_passwords fuel (__init__ mn mx) count (Some L) w)
     = OutOfFuel)
  ∧ (∀ e w',
       generate_random_passwords fuel (__init__ mn mx) count (Some L) w
       ≠ (Raise e, w')).
Proof.
  intros Hc HL.
  rewrite generate_random_passwords_fixed by lia.
  split; [|split; [|split]].
  - intros res w' E.
    apply sample_with_ok in E as (Hlen & Hnd & Hres & _); [|done|lia].
    split; [done|]. split; [done|]. intros pwd Hp.
    destruct (Hres pwd Hp) as [Hl Hch]. split; [|done]. unfold Py.len. lia.
  - intros H. by apply sample_with_returns.
  - intros H. apply sample_with_stalls; [done|lia|].
    by rewrite init_charset_length.
  - intros e w'. by apply sample_with_no_raise.
Qed.

(** Three passwords of two characters, with the draws 0, 1, 4, 9, ...: the
    call returns within five iterations. *)
Lemma generate_random_passwords_result_witness :
  ∃ res w',
    generate_random_passwords 5 (__init__ 6 12) 3 (Some 2)
      (quiet_world (λ i, i * i)%nat) = (Ok res, w')
    ∧ Z.of_nat (length res) = 3 ∧ NoDup res
    ∧ ∀ pwd, pwd ∈ res →
        Py.len pwd = 2
        ∧ ∀ c, c ∈ chars pwd → c ∈ chars (charset (__init__ 6 12)).
Proof.
  destruct (generate_random_passwords_result 5 6 12 3 2
              (quiet_world (λ i, i * i)%nat)) as (Hok & Hret & _);
    [lia|lia|].
  destruct Hret as (res & w' & E); [vm_compute; discriminate|].
  exists res, w'. split; [exact E|]. exact (Hok res w' E).
Defined.

(** 95 passwords of one character: there are 94 such texts only, and no
    amount of fuel and no draws make the call return. *)
Lemma generate_random_passwords_stalls :
  ¬ ∃ fuel w res w',
      generate_random_passwords fuel (__init__ 6 12) 95 (Some 1) w = (Ok res, w').
Proof.
  intros (fuel & w & res & w' & E).
  rewrite generate_random_passwords_fixed in E by lia.
  assert (H : fst (sample_with fuel (__init__ 6 12) 95 1 w) = OutOfFuel).
  { apply sample_with_stalls; [done|lia|]. rewrite init_charset_length. lia. }
  by rewrite E in H.
Qed.

(** C4, as amended. A fixed length other than 0 is the target length of
    the sampler: no draw is spent on the range, the bounds of the range play
    no part, and every output has that many characters (none when it is
    negative). Without a fixed length, or with the fixed length 0, one
    length is drawn from [[min_len, max_len]] before anything else and every
    output of the call has it. *)
Theorem generate_random_passwords_target (fuel : nat) (mn mx count : Z)
    (length : option Z) (w : world) :
  (∀ l, length = Some l → l ≠ 0 →
     generate_random_passwords fuel (__init__ mn mx) count length w
       = sample_with fuel (__init__ mn mx) count l w
     ∧ (∀ mn' mx',
          generate_random_passwords fuel (__init__ mn' mx') count length w
          = generate_random_passwords fuel (__init__ mn mx) count length w)
     ∧ (∀ res w',
          generate_random_passwords fuel (__init__ mn mx) count length w
            = (Ok res, w') →
          ∀ pwd, pwd ∈ res → String.length pwd = Z.to_nat l))
  ∧ (length = None ∨ length = Some 0 → mn ≤ mx →
     mn ≤ chosen_length (__init__ mn mx) w ≤ mx
     ∧ generate_random_passwords fuel (__init__ mn mx) count length w
       = sample_with fuel (__init__ mn mx) count
           (chosen_length (__init__ mn mx) w) (after_draws 1 w)
     ∧ (∀ res w',
          generate_random_passwords fuel (__init__ mn mx) count length w
            = (Ok res, w') →
          ∀ pwd, pwd ∈ res →
            String.length pwd = Z.to_nat (chosen_length (__init__ mn mx) w))).
Proof.
  split.
  - intros l -> Hl. rewrite !generate_random_passwords_fixed by done.
    split; [done|]. split.
    + intros mn' mx'. rewrite !generate_random_passwords_fixed by done.
      by apply sample_with_charset.
    + intros res w' E pwd Hp.
      by apply (sample_with_members _ _ _ _ _ _ _ (init_charset mn mx) E).
  - intros Hl Hle.
    assert (Ht : truthy_int length = false) by (by destruct Hl as [-> | ->]).
    split; [by apply (chosen_length_range (__init__ mn mx))|].
    rewrite (generate_random_passwords_ranged _ _ _ _ _ Ht) by done.
    split; [done|]. intros res w' E pwd Hp.
    by apply (sample_with_members _ _ _ _ _ _ _ (init_charset mn mx) E).
Qed.

(** Two passwords with the fixed length 3, and two without a fixed length
    within the bounds 6 and 12, where the first draw settles on 7. *)
Lemma generate_random_passwords_target_witness :
  (generate_random_passwords 5 (__init__ 6 12) 2 (Some 3)
     (quiet_world (λ i, 7 * i)%nat)
   = sample_with 5 (__init__ 6 12) 2 3 (quiet_world (λ i, 7 * i)%nat)
   ∧ fst (generate_random_passwords 5 (__init__ 6 12) 2 (Some 3)
            (quiet_world (λ i, 7 * i)%nat)) = Ok ["aho"; "vCJ"])
  ∧ (6 ≤ chosen_length (__init__ 6 12) (quiet_world S) ≤ 12
     ∧ chosen_length (__init__ 6 12) (quiet_world S) = 7
     ∧ fst (generate_random_passwords 5 (__init__ 6 12) 2 None
              (quiet_world S))
       = Ok ["cdefghi"; "jklmnop"]).
Proof.
  split.
  - split; [|vm_compute; reflexivity].
    apply (generate_random_passwords_target 5 6 12 2 (Some 3)
             (quiet_world (λ i, 7 * i)%nat)); [reflexivity|lia].
  - split; [|split; vm_compute; reflexivity].
    apply (generate_random_passwords_target 5 6 12 2 None
             (quiet_world S)); [by left|lia].
Defined.

(** One password with the fixed length 0 and the bounds 6 and 12: it has
    six characters, where the target length 0 gives the empty text. *)
Lemma fixed_length_zero_ignored :
  fst (generate_random_passwords 1 (__init__ 6 12) 1 (Some 0)
         (quiet_world (λ _, 0%nat))) = Ok ["aaaaaa"]
  ∧ fst (sample_with 1 (__init__ 6 12) 1 0 (quiet_world (λ _, 0%nat))) = Ok [""].
Proof. split; vm_compute; reflexivity. Qed.

(** * The pattern loop *)

Section PatternLoop.
Variable expand : MassPassGen → string → Z → M string.

(** The loop calls the expander for every seed in turn and keeps, in that
    order, the results of a length within the bounds. *)
Lemma pattern_loop_filter self pattern seeds acc w :
  pattern_loop expand self pattern seeds acc w =
  (pwds <- expand_all expand self pattern seeds;;
   ret (acc ++ filter (λ pwd, length_ok self pwd) pwds)%list) w.
Proof.
  revert acc w. induction seeds as [|i seeds IH]; intros acc w.
  - unfold bind, ret. simpl. by rewrite filter_nil, (right_id_L [] app).
  - cbn [pattern_loop expand_all]. unfold bind.
    destruct (expand self pattern i w) as [[pwd| |] w1]; [|done..].
    rewrite IH. unfold bind.
    destruct (expand_all expand self pattern seeds w1) as [[pwds| |] w2]; [|done..].
    unfold ret. rewrite filter_cons.
    destruct (length_ok self pwd) eqn:E.
    + rewrite decide_True by done. by rewrite <- (assoc_L app).
    + by rewrite decide_False by (simpl; tauto).
Qed.

Lemma generate_pattern_passwords_with_filter self pattern count w :
  generate_pattern_passwords_with expand self pattern count w =
  (print "[*] Generating pattern-based passwords...";;;
   pwds <- expand_all expand self pattern (Py.range count);;
   ret (filter (λ pwd, length_ok self pwd) pwds)) w.
Proof.
  unfold generate_pattern_passwords_with.
  erewrite !bind_ok by apply print_run. by rewrite pattern_loop_filter.
Qed.

End PatternLoop.

Lemma range_length count : length (Py.range count) = Z.to_nat count.
Proof. unfold Py.range. by rewrite length_fmap, length_seq. Qed.

Lemma range_lookup count (i : nat) :
  (i < Z.to_nat count)%nat → Py.range count !! i = Some (Z.of_nat i).
Proof.
  intros H. unfold Py.range. rewrite list_lookup_fmap, lookup_seq_lt by done.
  done.
Qed.

Lemma apply_pattern_expansion self pattern seed w :
  apply_pattern self pattern seed w = (Ok (expansion pattern seed w), after_draws 3 w).
Proof. apply apply_pattern_run. Qed.

(** The expansions of a list of seeds: three draws each, one call after the
    other. *)
Lemma expand_all_apply_pattern self pattern seeds w :
  expand_all apply_pattern self pattern seeds w =
  (Ok (imap (λ j seed, expansion pattern seed (after_draws (3 * j) w)) seeds),
   after_draws (3 * length seeds) w).
Proof.
  revert w. induction seeds as [|i seeds IH]; intros w.
  - simpl. unfold ret. by rewrite after_draws_0.
  - cbn [expand_all]. erewrite bind_ok by apply apply_pattern_expansion.
    erewrite bind_ok by apply IH. unfold ret. f_equal.
    + f_equal. rewrite imap_cons, after_draws_0. f_equal.
      apply imap_ext. intros j seed _. simpl.
      rewrite after_draws_add. do 2 f_equal. lia.
    + rewrite after_draws_add. f_equal. simpl. lia.
Qed.

Lemma generate_pattern_passwords_run self pattern count w :
  generate_pattern_passwords self pattern count w =
  (Ok (filter (λ pwd, length_ok self pwd)
         (imap (λ j seed, expansion pattern seed (after_draws (3 * j) w))
            (Py.range count))),
   set_stdout (stdout w ++ ["[*] Generating pattern-based passwords..."])%list
     (after_draws (3 * Z.to_nat count) w)).
Proof.
  unfold generate_pattern_passwords.
  rewrite generate_pattern_passwords_with_filter.
  erewrite bind_ok by apply print_run.
  erewrite bind_ok by apply expand_all_apply_pattern.
  unfold ret. rewrite range_length.
  by rewrite (imap_ext _
    (λ j seed, expansion pattern seed (after_draws (3 * j) w)) (Py.range count)).
Qed.

(** C2. With a non-empty pattern and a [count] of at least 1,
    [generate_pattern_passwords] calls the expander once for each of the
    seeds 0, 1, ..., [count - 1], in that order, and returns, in that order
    too, exactly the results of a length within [[min_len, max_len]]; the
    others are dropped and nothing is expanded again (every call takes its
    three draws, [3 * count] in all), so at most [count] entries come back;
    and of three expansions of 4, 8 and 12 characters, with the bounds 6 and
    10, the second alone is kept. *)
Theorem generate_pattern_passwords_filtered (self : MassPassGen)
    (pattern : string) (count : Z) (w : world) :
  pattern ≠ "" → 1 ≤ count →
  (∀ expand,
     generate_pattern_passwords_with expand self pattern count w =
     (print "[*] Generating pattern-based passwords...";;;
      pwds <- expand_all expand self pattern (Py.range count);;
      ret (filter (λ pwd, length_ok self pwd) pwds)) w)
  ∧ Z.of_nat (length (Py.range count)) = count
  ∧ (∀ i : nat, Z.of_nat i < count → Py.range count !! i = Some (Z.of_nat i))
  ∧ (∃ res w',
       generate_pattern_passwords self pattern count w = (Ok res, w')
       ∧ res = filter (λ pwd, length_ok self pwd)
                 (imap (λ j seed, expansion pattern seed (after_draws (3 * j) w))
                    (Py.range count))
       ∧ Z.of_nat (length res) ≤ count
       ∧ rng_pos w' = (rng_pos w + 3 * Z.to_nat count)%nat)
  ∧ (∀ e0 e1 e2,
       String.length e0 = 4%nat → String.length e1 = 8%nat →
       String.length e2 = 12%nat →
       filter (λ pwd, length_ok (__init__ 6 10) pwd) [e0; e1; e2] = [e1]).
Proof.
  intros _ Hc.
  split; [intros expand; apply generate_pattern_passwords_with_filter|].
  split; [rewrite range_length; lia|].
  split; [intros i Hi; apply range_lookup; lia|].
  split.
  - eexists _, _. split; [apply generate_pattern_passwords_run|].
    split; [done|]. split; [|done].
    etrans; [apply inj_le, length_filter|].
    rewrite length_imap, range_length. lia.
  - intros e0 e1 e2 H0 H1 H2.
    rewrite !filter_cons, filter_nil. unfold length_ok, Py.len.
    rewrite H0, H1, H2. done.
Qed.

(** Three expansions of 4, 8 and 12 characters with the bounds 6 and 10,
    and the twelve expansions of [{n}{d}] with the bounds 2 and 2, of which
    the last two, of three characters, are dropped. *)
Lemma generate_pattern_passwords_filtered_witness :
  fst (generate_pattern_passwords_with
         (listed_expander ["abcd"; "abcdefgh"; "abcdefghijkl"])
         (__init__ 6 10) "{a}" 3 (quiet_world (λ _, 0%nat)))
  = Ok ["abcdefgh"]
  ∧ fst (generate_pattern_passwords (__init__ 2 2) "{n}{d}" 12
           (quiet_world (λ i, i)))
    = Ok ["01"; "14"; "27"; "30"; "43"; "56"; "69"; "72"; "85"; "98"].
Proof.
  destruct (generate_pattern_passwords_filtered (__init__ 6 10) "{a}" 3
              (quiet_world (λ _, 0%nat))) as (H & _); [done|lia|].
  split; [rewrite H|]; vm_compute; reflexivity.
Defined.

(** * Writing *)

Lemma file_text_app l1 l2 : file_text (l1 ++ l2) = file_text l1 +:+ file_text l2.
Proof.
  induction l1 as [|p l1 IH]; [done|]. simpl. by rewrite IH, !sapp_assoc.
Qed.

Lemma written_written path t1 t2 w :
  written path t2 (written path t1 w) = written path t2 w.
Proof. unfold written, set_files. simpl. by rewrite insert_insert_eq. Qed.

Lemma written_lookup path text w : files (written path text w) !! path = Some text.
Proof. unfold written. simpl. apply lookup_insert_eq. Qed.

Lemma written_lookup_ne path path' text w :
  path ≠ path' → files (written path text w) !! path' = files w !! path'.
Proof. intros H. unfold written. simpl. by apply lookup_insert_ne. Qed.

Lemma open_w_run path w :
  open_error w path = None → open_w path w = (Ok tt, written path "" w).
Proof. intros H. unfold open_w. by rewrite H. Qed.

Lemma open_w_error path w cause :
  open_error w path = Some cause → open_w path w = (Raise (OSError cause), w).
Proof. intros H. unfold open_w. by rewrite H. Qed.

Lemma write_run path k handed data w :
  write_error w path k = None →
  write path k handed data w = (Ok (handed +:+ data), w).
Proof. intros H. unfold write. by rewrite H. Qed.

Lemma write_fails path k handed data w cause :
  write_error w path k = Some cause →
  write path k handed data w =
  (Raise (OSError cause),
   written path (String.substring 0 (flushed w path) (handed +:+ data)) w).
Proof. intros H. unfold write. by rewrite H. Qed.

Lemma close_run path handed w : close path handed w = (Ok tt, written path handed w).
Proof. done. Qed.

(** The first characters of a text are a leading part of it. *)
Lemma substring_leading n s : ∃ rest, s = String.substring 0 n s +:+ rest.
Proof.
  revert s. induction n as [|n IH]; intros s.
  - exists s. by destruct s.
  - destruct s as [|c s]; [by exists ""|]. destruct (IH s) as [rest E].
    exists rest. simpl. rewrite sapp_cons. by f_equal.
Qed.

(** The text of the first entries of a list is a leading part of the text
    of the list. *)
Lemma file_text_take j passwords :
  file_text passwords
  = file_text (take j passwords) +:+ file_text (drop j passwords).
Proof. by rewrite <- file_text_app, take_drop. Qed.

(** Every write goes through: every entry is handed over, in the order of
    the list, each followed by one line feed. *)
Lemma write_all_run path k passwords handed w :
  (∀ j, (j < length passwords)%nat → write_error w path (k + j) = None) →
  write_all path k handed passwords w = (Ok (handed +:+ file_text passwords), w).
Proof.
  revert k handed. induction passwords as [|pwd rest IH]; intros k handed H.
  - simpl. by rewrite sapp_nil_r.
  - cbn [write_all]. erewrite bind_ok.
    2:{ apply write_run. rewrite <- (Nat.add_0_r k). apply H. simpl. lia. }
    rewrite IH.
    + simpl. by rewrite !sapp_assoc.
    + intros j Hj. rewrite Nat.add_succ_comm. apply H. simpl. lia.
Qed.

(** The write number [j] is the first to fail: the file holds what the
    operating system took of the text handed over with the entries up to
    that one, and nothing of the others. *)
Lemma write_all_fails path k passwords handed w j cause :
  (j < length passwords)%nat →
  (∀ i, (i < j)%nat → write_error w path (k + i) = None) →
  write_error w path (k + j) = Some cause →
  write_all path k handed passwords w =
  (Raise (OSError cause),
   written path
     (String.substring 0 (flushed w path)
        (handed +:+ file_text (take (S j) passwords))) w).
Proof.
  revert k j handed.
  induction passwords as [|pwd rest IH]; intros k j handed Hj Hok Hfail.
  - simpl in Hj. lia.
  - cbn [write_all]. destruct j as [|j].
    + rewrite Nat.add_0_r in Hfail. erewrite bind_raise by (by apply write_fails).
      simpl. by rewrite sapp_nil_r.
    + erewrite bind_ok.
      2:{ apply write_run. rewrite <- (Nat.add_0_r k). apply Hok. lia. }
      rewrite (IH (S k) j).
      * simpl. by rewrite !sapp_assoc.
      * simpl in Hj. lia.
      * intros i Hi. rewrite Nat.add_succ_comm. apply Hok. lia.
      * by rewrite Nat.add_succ_comm.
Qed.

(** * [save_to_file] *)

Lemma save_to_file_ok self passwords filename w :
  open_error w filename = None →
  (∀ j, (j < length passwords)%nat → write_error w filename j = None) →
  save_to_file self passwords filename w =
  (Ok true,
   set_stdout (stdout w ++ ["[+] Successfully saved "
                              +:+ Py.str (Z.of_nat (length passwords))
                              +:+ " passwords to " +:+ filename])%list
     (written filename (file_text passwords) w)).
Proof.
  intros Ho Hw. unfold save_to_file, try_except.
  erewrite bind_ok by (by apply open_w_run).
  erewrite bind_ok by (apply write_all_run; exact Hw).
  erewrite bind_ok by apply close_run.
  erewrite bind_ok by apply print_run.
  by rewrite sapp_nil_l, written_written.
Qed.

Lemma save_to_file_open_error self passwords filename w cause :
  open_error w filename = Some cause →
  save_to_file self passwords filename w =
  (Ok false, set_stdout (stdout w ++ ["[-] Error saving file: " +:+ cause])%list w).
Proof.
  intros Ho. unfold save_to_file, try_except.
  erewrite bind_raise by (by apply open_w_error). simpl.
  erewrite bind_ok by apply print_run. done.
Qed.

Lemma save_to_file_write_error self passwords filename w j cause :
  open_error w filename = None →
  (j < length passwords)%nat →
  (∀ i, (i < j)%nat → write_error w filename i = None) →
  write_error w filename j = Some cause →
  save_to_file self passwords filename w =
  (Ok false,
   set_stdout (stdout w ++ ["[-] Error saving file: " +:+ cause])%list
     (written filename
        (String.substring 0 (flushed w filename)
           (file_text (take (S j) passwords))) w)).
Proof.
  intros Ho Hj Hok Hfail. unfold save_to_file, try_except.
  erewrite bind_ok by (by apply open_w_run).
  erewrite bind_raise by (by apply write_all_fails). simpl.
  erewrite bind_ok by apply print_run.
  by rewrite sapp_nil_l, written_written.
Qed.

(** * Reading back *)

Lemma is_terminator_false c :
  is_terminator c = false → Ascii.eqb c Py.LF = false ∧ Ascii.eqb c Py.CR = false.
Proof. unfold is_terminator. by intros ?%orb_false_elim. Qed.

(** A line without a terminator in it, closed by a line feed, is read as
    it is. *)
Lemma read_lines_from_line cur p rest :
  (∀ c, c ∈ chars p → is_terminator c = false) →
  read_lines_from cur (p +:+ String Py.LF rest) =
  (cur +:+ p) :: read_lines_from "" rest.
Proof.
  revert cur. induction p as [|a p IH]; intros cur H.
  - rewrite sapp_nil_l, sapp_nil_r. cbn [read_lines_from].
    by rewrite Ascii.eqb_refl.
  - rewrite sapp_cons. cbn [read_lines_from].
    destruct (is_terminator_false a) as [-> ->].
    { apply H. rewrite chars_cons. left. }
    rewrite IH.
    + by rewrite sapp_assoc, sapp_cons, sapp_nil_l.
    + intros c Hc. apply H. rewrite chars_cons. by right.
Qed.

(** Reading a written file back gives the entries, as many lines as there
    are entries and no empty line behind them. *)
Lemma read_lines_file_text passwords :
  (∀ pwd c, pwd ∈ passwords → c ∈ chars pwd → is_terminator c = false) →
  read_lines (file_text passwords) = passwords.
Proof.
  unfold read_lines. induction passwords as [|pwd rest IH]; intros H; [done|].
  cbn [file_text]. rewrite sapp_cons, sapp_nil_l.
  rewrite read_lines_from_line, sapp_nil_l, IH; [done| |].
  - intros p c Hp. apply H. by right.
  - intros c. apply H. left.
Qed.

Lemma charset_no_terminator mn mx :
  Forall (λ c, is_terminator c = false) (chars (charset (__init__ mn mx))).
Proof. by_evaluation. Qed.

(** The first failure among the first [n] answers of the operating
    system, if there is one. *)
Lemma first_failure (f : nat → option string) (n : nat) :
  (∀ j, (j < n)%nat → f j = None)
  ∨ ∃ j cause, (j < n)%nat ∧ (∀ i, (i < j)%nat → f i = None) ∧ f j = Some cause.
Proof.
  induction n as [|n [IH|IH]].
  - left. intros j Hj. lia.
  - destruct (f n) as [cause|] eqn:E.
    + right. exists n, cause. split; [lia|]. split; [|done].
      intros i Hi. apply IH. lia.
    + left. intros j Hj. destruct (decide (j = n)) as [->|]; [done|].
      apply IH. lia.
  - right. destruct IH as (j & cause & ? & ? & ?). exists j, cause.
    split; [lia|done].
Qed.

(** C6. [save_to_file] opens the destination for writing from scratch and
    writes every entry, in the order of the list, followed by one line feed;
    it returns [True] when every write went through, and [False], with the
    cause of the failure printed, when the destination cannot be opened or a
    write fails; writing [abc] and [def] and reading the file back gives
    the two lines [abc] and [def] and no empty line behind them. *)
Theorem save_to_file_outcome (self : MassPassGen) (passwords : list string)
    (filename : string) (w : world) :
  (open_error w filename = None →
   (∀ j, (j < length passwords)%nat → write_error w filename j = None) →
   save_to_file self passwords filename w =
   (Ok true,
    set_stdout (stdout w ++ ["[+] Successfully saved "
                               +:+ Py.str (Z.of_nat (length passwords))
                               +:+ " passwords to " +:+ filename])%list
      (written filename (file_text passwords) w)))
  ∧ (∀ cause,
       open_error w filename = Some cause →
       save_to_file self passwords filename w =
       (Ok false,
        set_stdout (stdout w ++ ["[-] Error saving file: " +:+ cause])%list w))
  ∧ (∀ j cause,
       open_error w filename = None →
       (j < length passwords)%nat →
       (∀ i, (i < j)%nat → write_error w filename i = None) →
       write_error w filename j = Some cause →
       ∃ w',
         save_to_file self passwords filename w = (Ok false, w')
         ∧ stdout w' = (stdout w ++ ["[-] Error saving file: " +:+ cause])%list)
  ∧ (open_error w filename = None →
     (∀ j, write_error w filename j = None) →
     ∃ w',
       save_to_file self ["abc"; "def"] filename w = (Ok true, w')
       ∧ files w' !! filename
         = Some ("abc" +:+ String Py.LF ("def" +:+ String Py.LF ""))
       ∧ file_lines w' filename = Some ["abc"; "def"]).
Proof.
  split; [apply save_to_file_ok|]. split; [apply save_to_file_open_error|].
  split.
  - intros j cause Ho Hj Hok Hfail. eexists. split.
    + by eapply save_to_file_write_error.
    + done.
  - intros Ho Hw. eexists. split; [by apply save_to_file_ok|].
    unfold file_lines. simpl. rewrite lookup_insert_eq. done.
Qed.

(** [abc] and [def] written to [out.txt] on a disk that refuses nothing. *)
Lemma save_to_file_outcome_witness :
  save_to_file (__init__ 6 12) ["abc"; "def"] "out.txt" (quiet_world (λ _, O))
  = (Ok true,
     set_stdout ["[+] Successfully saved 2 passwords to out.txt"]
       (written "out.txt" (file_text ["abc"; "def"]) (quiet_world (λ _, O)))).
Proof.
  apply (save_to_file_outcome (__init__ 6 12) ["abc"; "def"] "out.txt"
           (quiet_world (λ _, O))); reflexivity.
Defined.

(** C5, as amended. [save_to_file] always returns: [True] exactly when the
    destination was opened and every write went through, and then the file
    holds the whole collection; [False] when the destination cannot be
    opened, and then no file is touched, or when a write fails, and then the
    file, emptied when it was opened, holds what the operating system took
    of the text handed over up to the entry whose write failed: a leading
    part of the text of the collection, which may be empty and may end in
    the middle of an entry. In both cases the cause is printed. No other
    file is changed. *)
Theorem save_to_file_file_state (self : MassPassGen) (passwords : list string)
    (filename : string) (w : world) :
  ∃ b w',
    save_to_file self passwords filename w = (Ok b, w')
    ∧ (∀ path, path ≠ filename → files w' !! path = files w !! path)
    ∧ (b = true →
       open_error w filename = None
       ∧ (∀ j, (j < length passwords)%nat → write_error w filename j = None)
       ∧ files w' !! filename = Some (file_text passwords))
    ∧ (b = false →
       (∃ cause,
          open_error w filename = Some cause
          ∧ files w' = files w
          ∧ stdout w' = (stdout w ++ ["[-] Error saving file: " +:+ cause])%list)
       ∨ (∃ j cause,
            open_error w filename = None
            ∧ (j < length passwords)%nat
            ∧ (∀ i, (i < j)%nat → write_error w filename i = None)
            ∧ write_error w filename j = Some cause
            ∧ files w' !! filename
              = Some (String.substring 0 (flushed w filename)
                        (file_text (take (S j) passwords)))
            ∧ (∃ rest,
                 file_text passwords
                 = String.substring 0 (flushed w filename)
                     (file_text (take (S j) passwords)) +:+ rest)
            ∧ stdout w' = (stdout w ++ ["[-] Error saving file: " +:+ cause])%list)).
Proof.
  destruct (open_error w filename) as [cause|] eqn:Ho.
  - exists false. eexists. split; [by apply save_to_file_open_error|].
    split; [done|]. split; [done|]. intros _. left. by exists cause.
  - destruct (first_failure (write_error w filename) (length passwords))
      as [Hw|(j & cause & Hj & Hok & Hfail)].
    + exists true. eexists. split; [by apply save_to_file_ok|].
      split; [intros path Hne; by apply written_lookup_ne|].
      split; [|done]. intros _. split; [done|]. split; [done|].
      apply written_lookup.
    + exists false. eexists. split; [by eapply save_to_file_write_error|].
      split; [intros path Hne; by apply written_lookup_ne|].
      split; [done|]. intros _. right. exists j, cause.
      repeat (split; [done|]). split; [apply written_lookup|].
      split; [|done].
      destruct (substring_leading (flushed w filename)
                  (file_text (take (S j) passwords))) as [rest E].
      exists (rest +:+ file_text (drop (S j) passwords)).
      rewrite <- sapp_assoc, <- E. apply file_text_take.
Qed.

(** [abc] and [def] written to [o.txt] on the disk with room for five
    characters. *)
Lemma save_to_file_file_state_witness :
  ∃ b w',
    save_to_file (__init__ 6 12) ["abc"; "def"] "o.txt" full_disk_world = (Ok b, w')
    ∧ (b = false →
       files w' !! "o.txt" = Some ("abc" +:+ String Py.LF "d")
       ∨ files w' = files full_disk_world).
Proof.
  destruct (save_to_file_file_state (__init__ 6 12) ["abc"; "def"] "o.txt"
              full_disk_world) as (b & w' & E & _ & _ & Hf).
  exists b, w'. split; [exact E|]. intros Hb.
  destruct (Hf Hb) as [(cause & Ho & Hfiles & _)|(j & cause & _ & Hj & Hok & Hfail & Hfile & _)].
  - right. exact Hfiles.
  - left. destruct j as [|[|j]]; [discriminate Hfail|exact Hfile|].
    simpl in Hj. lia.
Defined.

(** On the disk with room for five characters, saving [abc] and [def] to
    [o.txt] fails and leaves the file with [abc], a line feed and [d]:
    neither the whole collection nor nothing of it, and what the file held
    is lost. *)
Lemma save_to_file_partial :
  fst (save_to_file (__init__ 6 12) ["abc"; "def"] "o.txt" full_disk_world)
    = Ok false
  ∧ files (snd (save_to_file (__init__ 6 12) ["abc"; "def"] "o.txt" full_disk_world))
      !! "o.txt" = Some ("abc" +:+ String Py.LF "d")
  ∧ "abc" +:+ String Py.LF "d" ≠ file_text ["abc"; "def"]
  ∧ "abc" +:+ String Py.LF "d" ≠ ""
  ∧ files full_disk_world !! "o.txt" = Some "old".
Proof. vm_compute. repeat split; discriminate. Qed.

(** Whatever is asked for, what the sampler hands back are texts of one
    length made of characters of the charset. *)
Lemma generate_random_passwords_members fuel self count length w res w' :
  charset self ≠ "" →
  generate_random_passwords fuel self count length w = (Ok res, w') →
  ∃ t, ∀ p, p ∈ res → String.length p = Z.to_nat t
                      ∧ ∀ c, c ∈ chars p → c ∈ chars (charset self).
Proof.
  intros Hne E. destruct (truthy_int length) eqn:Ht.
  - destruct length as [l|]; [|done]. exists l.
    rewrite generate_random_passwords_fixed in E.
    + by eapply sample_with_members.
    + intros ->. done.
  - destruct (decide (min_len self ≤ max_len self)) as [Hle|Hgt].
    + rewrite generate_random_passwords_ranged in E by done.
      eexists. by eapply sample_with_members.
    + unfold generate_random_passwords, random.randint in E. rewrite Ht in E.
      assert (Hlt : (max_len self <? min_len self) = true) by (apply Z.ltb_lt; lia).
      rewrite Hlt in E. done.
Qed.

(** C10. No character of the charset is a line terminator, so no password
    the sampler returns holds one, and writing the passwords it returned
    gives a file that reads back as exactly these passwords, one a line:
    as many lines as there are passwords. *)
Theorem random_passwords_one_per_line (fuel : nat) (mn mx count : Z)
    (length : option Z) (w : world) (res : list string) (w' : world) :
  generate_random_passwords fuel (__init__ mn mx) count length w = (Ok res, w') →
  (∀ c, c ∈ chars (charset (__init__ mn mx)) → is_terminator c = false)
  ∧ (∀ pwd c, pwd ∈ res → c ∈ chars pwd → is_terminator c = false)
  ∧ (∀ filename,
       open_error w' filename = None →
       (∀ j, write_error w' filename j = None) →
       ∃ w'' lines,
         save_to_file (__init__ mn mx) res filename w' = (Ok true, w'')
         ∧ file_lines w'' filename = Some lines
         ∧ lines = res
         ∧ List.length lines = List.length res).
Proof.
  intros E.
  pose proof (charset_no_terminator mn mx) as Hc. rewrite Forall_forall in Hc.
  assert (Hres : ∀ pwd c, pwd ∈ res → c ∈ chars pwd → is_terminator c = false).
  { intros pwd c Hp Hin.
    destruct (generate_random_passwords_members _ _ _ _ _ _ _
                (init_charset mn mx) E) as [t Ht].
    apply Hc. by apply (Ht pwd Hp). }
  split; [done|]. split; [done|].
  intros filename Ho Hw. eexists _, res.
  split; [by apply save_to_file_ok|].
  split; [|done]. unfold file_lines. simpl. rewrite lookup_insert_eq. simpl.
  by rewrite read_lines_file_text.
Qed.

(** The two passwords of a run, saved and read back. *)
Lemma random_passwords_one_per_line_witness :
  ∃ w'',
    save_to_file (__init__ 6 12) ["aho"; "vCJ"] "out.txt"
      (snd (generate_random_passwords 5 (__init__ 6 12) 2 (Some 3)
              (quiet_world (λ i, 7 * i)%nat))) = (Ok true, w'')
    ∧ file_lines w'' "out.txt" = Some ["aho"; "vCJ"].
Proof.
  destruct (random_passwords_one_per_line 5 6 12 2 (Some 3)
              (quiet_world (λ i, 7 * i)%nat) ["aho"; "vCJ"]
              (snd (generate_random_passwords 5 (__init__ 6 12) 2 (Some 3)
                      (quiet_world (λ i, 7 * i)%nat))))
    as (_ & _ & H); [vm_compute; reflexivity|].
  destruct (H "out.txt") as (w'' & lines & E & Hl & -> & _);
    [reflexivity|reflexivity|].
  exists w''. split; [exact E|exact Hl].
Defined.

(** * [main] *)

Lemma validation_run a w :
  validation a w =
  match rejection a with
  | Some msg => (Raise (SystemExit 1), set_stdout (stdout w ++ [msg])%list w)
  | None => (Ok tt, w)
  end.
Proof.
  unfold validation, rejection, bind, sys_exit, raise, ret, print.
  destruct ((a_min a <? 1) || (a_max a >? 128)); [done|].
  destruct (a_min a >? a_max a); [done|].
  by destruct (a_count a <? 1).
Qed.

Lemma rejection_bad a :
  a_min a < 1 ∨ a_max a > 128 ∨ a_min a > a_max a ∨ a_count a < 1 →
  is_Some (rejection a).
Proof.
  intros H. unfold rejection.
  destruct (a_min a <? 1) eqn:E1; [by eexists|].
  destruct (a_max a >? 128) eqn:E2; [by eexists|]. simpl.
  destruct (a_min a >? a_max a) eqn:E3; [by eexists|].
  destruct (a_count a <? 1) eqn:E4; [by eexists|].
  apply Z.ltb_ge in E1, E4. rewrite Z.gtb_ltb in E2, E3.
  apply Z.ltb_ge in E2, E3. lia.
Qed.

Lemma rejection_good a :
  1 ≤ a_min a → a_min a ≤ a_max a → a_max a ≤ 128 → 1 ≤ a_count a →
  rejection a = None.
Proof.
  intros H1 H2 H3 H4. unfold rejection.
  assert ((a_min a <? 1) = false) as -> by (apply Z.ltb_ge; lia).
  assert ((a_max a >? 128) = false) as -> by (rewrite Z.gtb_ltb; apply Z.ltb_ge; lia).
  assert ((a_min a >? a_max a) = false) as -> by (rewrite Z.gtb_ltb; apply Z.ltb_ge; lia).
  assert ((a_count a <? 1) = false) as -> by (apply Z.ltb_ge; lia).
  done.
Qed.

(** A rejected run ends in [sys.exit(1)] with the banner and the message on
    the console and nothing else changed. *)
Lemma main_rejected fuel a w msg :
  rejection a = Some msg →
  main fuel a w =
  (Raise (SystemExit 1), set_stdout (stdout w ++ [banner_text; msg])%list w).
Proof.
  intros H. unfold main, banner.
  erewrite bind_ok by apply print_run.
  erewrite bind_raise; [|rewrite validation_run, H; reflexivity].
  unfold set_stdout. simpl. by rewrite <- (assoc_L app).
Qed.

(** C7. The bounds 1 and 128 pass the validation (with a count of at
    least 1); a minimum of 129 and a maximum of 0 are rejected whatever the
    other bound is, and so is every bad count or bound: [main] then leaves
    through [sys.exit(1)] having printed the banner and the message and
    nothing else, with no draw made and no file touched. *)
Theorem validation_bounds :
  (∀ a w,
     a_min a = 1 → a_max a = 128 → 1 ≤ a_count a →
     validation a w = (Ok tt, w))
  ∧ (∀ fuel a w,
       a_min a = 129 ∨ a_max a = 0
       ∨ a_min a < 1 ∨ a_max a > 128 ∨ a_min a > a_max a ∨ a_count a < 1 →
       ∃ msg,
         main fuel a w =
         (Raise (SystemExit 1),
          set_stdout (stdout w ++ [banner_text; msg])%list w)
         ∧ files (snd (main fuel a w)) = files w
         ∧ rng_pos (snd (main fuel a w)) = rng_pos w).
Proof.
  split.
  - intros a w H1 H2 H3. rewrite validation_run, rejection_good; [done|lia..].
  - intros fuel a w H.
    destruct (rejection_bad a) as [msg Hmsg]; [lia|].
    exists msg. by rewrite (main_rejected _ _ _ _ Hmsg).
Qed.

(** The bounds 1 and 128, the minimum 129 and the maximum 0. *)
Lemma validation_bounds_witness :
  validation {| a_count := 10; a_output := "out"; a_length := None;
                a_min := 1; a_max := 128; a_pattern := None |}
    (quiet_world (λ _, O))
  = (Ok tt, quiet_world (λ _, O))
  ∧ (∃ msg,
       main 0 {| a_count := 10; a_output := "out"; a_length := None;
                 a_min := 129; a_max := 200; a_pattern := None |}
         (quiet_world (λ _, O))
       = (Raise (SystemExit 1),
          set_stdout [banner_text; msg] (quiet_world (λ _, O))))
  ∧ (∃ msg,
       main 0 {| a_count := 10; a_output := "out"; a_length := None;
                 a_min := 1; a_max := 0; a_pattern := None |}
         (quiet_world (λ _, O))
       = (Raise (SystemExit 1),
          set_stdout [banner_text; msg] (quiet_world (λ _, O)))).
Proof.
  destruct validation_bounds as [Hacc Hrej].
  split; [apply Hacc; [reflexivity|reflexivity|simpl; lia]|].
  split.
  - destruct (Hrej O {| a_count := 10; a_output := "out"; a_length := None;
                        a_min := 129; a_max := 200; a_pattern := None |}
                (quiet_world (λ _, O))) as (msg & E & _); [by left|].
    exists msg. exact E.
  - destruct (Hrej O {| a_count := 10; a_output := "out"; a_length := None;
                        a_min := 1; a_max := 0; a_pattern := None |}
                (quiet_world (λ _, O))) as (msg & E & _); [right; by left|].
    exists msg. exact E.
Defined.

Lemma expansion_fifteen_n w : expansion fifteen_n 0 w = "000000000000000".
Proof. vm_compute. reflexivity. Qed.

Lemma generate_pattern_passwords_fifteen_n w :
  generate_pattern_passwords (__init__ 1 5) fifteen_n 1 w =
  (Ok [],
   set_stdout (stdout w ++ ["[*] Generating pattern-based passwords..."])%list
     (after_draws 3 w)).
Proof.
  rewrite generate_pattern_passwords_run.
  change (Py.range 1) with [0]. rewrite imap_cons, filter_cons.
  rewrite expansion_fifteen_n. done.
Qed.

(** C9. The pattern of fifteen [{n}], with the bounds 1 and 5 and a count
    of 1, gives no password at all; writing this empty collection succeeds
    and leaves an empty file; and [main], run on these arguments with a
    destination that can be opened, ends normally, the output file empty. *)
Theorem zero_result (fuel : nat) (output : string) (w : world) :
  fst (generate_pattern_passwords (__init__ 1 5) fifteen_n 1 w) = Ok []
  ∧ (∀ w1 filename,
       open_error w1 filename = None →
       ∃ w2,
         save_to_file (__init__ 1 5) [] filename w1 = (Ok true, w2)
         ∧ files w2 !! filename = Some "")
  ∧ (open_error w (output_name output) = None →
     ∃ w',
       main fuel (zero_result_args output) w = (Ok tt, w')
       ∧ files w' !! output_name output = Some ""
       ∧ file_lines w' (output_name output) = Some []).
Proof.
  split; [by rewrite generate_pattern_passwords_fifteen_n|]. split.
  - intros w1 filename Ho. eexists. split.
    + apply save_to_file_ok; [done|]. intros j Hj. simpl in Hj. lia.
    + simpl. apply lookup_insert_eq.
  - intros Ho. unfold main, banner.
    erewrite bind_ok by apply print_run.
    erewrite bind_ok by (rewrite validation_run; reflexivity).
    erewrite bind_ok by reflexivity.
    erewrite bind_ok by apply generate_pattern_passwords_fifteen_n.
    erewrite bind_ok.
    2:{ apply save_to_file_ok; [exact Ho|]. intros j Hj. simpl in Hj. lia. }
    erewrite bind_ok by apply print_run.
    erewrite bind_ok by apply print_run.
    eexists. split; [apply print_run|].
    unfold file_lines. simpl. rewrite lookup_insert_eq. done.
Qed.

(** The run on [fifteen_n] with the output name [empty]. *)
Lemma zero_result_witness :
  ∃ w',
    main 0 (zero_result_args "empty") (quiet_world (λ _, O)) = (Ok tt, w')
    ∧ files w' !! "empty.txt" = Some ""
    ∧ file_lines w' "empty.txt" = Some [].
Proof.
  apply (zero_result 0 "empty" (quiet_world (λ _, O))). reflexivity.
Defined.

(** * The checks of [main] *)

Lemma rejection_None a :
  rejection a = None ↔
  1 ≤ a_min a ∧ a_min a ≤ a_max a ∧ a_max a ≤ 128 ∧ 1 ≤ a_count a.
Proof.
  split.
  - intros H. destruct (decide (1 ≤ a_min a ∧ a_min a ≤ a_max a
                                ∧ a_max a ≤ 128 ∧ 1 ≤ a_count a)) as [|Hn];
      [done|].
    destruct (rejection_bad a) as [msg Hmsg]; [lia|congruence].
  - intros (? & ? & ? & ?). by apply rejection_good.
Qed.

(** X1. The three checks of [main] let the arguments through if and only if
    [1 <= min <= max <= 128] and [1 <= count]. Otherwise [main] leaves with
    the exit code 1 after one message: the one on the length when a bound is
    out of range, whatever else is wrong; the one on the order of the bounds
    when both are in range; the one on the count when only the count is
    bad. *)
Theorem validation_exact (a : args) (w : world) :
  (validation a w = (Ok tt, w)
   ↔ 1 ≤ a_min a ∧ a_min a ≤ a_max a ∧ a_max a ≤ 128 ∧ 1 ≤ a_count a)
  ∧ (a_min a < 1 ∨ 128 < a_max a →
     validation a w =
     (Raise (SystemExit 1),
      set_stdout (stdout w ++ ["[-] Password length must be between 1 and 128"])%list w))
  ∧ (1 ≤ a_min a → a_max a ≤ 128 → a_max a < a_min a →
     validation a w =
     (Raise (SystemExit 1),
      set_stdout (stdout w ++ ["[-] Minimum length cannot be greater than maximum length"])%list w))
  ∧ (1 ≤ a_min a → a_min a ≤ a_max a → a_max a ≤ 128 → a_count a < 1 →
     validation a w =
     (Raise (SystemExit 1),
      set_stdout (stdout w ++ ["[-] Count must be at least 1"])%list w)).
Proof.
  rewrite validation_run. split; [|split; [|split]].
  - rewrite <- rejection_None. destruct (rejection a); [|done].
    split; [intros [=]|done].
  - intros H. unfold rejection.
    assert ((a_min a <? 1) || (a_max a >? 128) = true) as ->; [|done].
    apply orb_true_iff. rewrite Z.ltb_lt, Z.gtb_ltb, Z.ltb_lt. lia.
  - intros H1 H2 H3. unfold rejection.
    assert ((a_min a <? 1) = false) as -> by (apply Z.ltb_ge; lia).
    assert ((a_max a >? 128) = false) as ->
      by (rewrite Z.gtb_ltb; apply Z.ltb_ge; lia).
    assert ((a_min a >? a_max a) = true) as ->
      by (rewrite Z.gtb_ltb; apply Z.ltb_lt; lia).
    done.
  - intros H1 H2 H3 H4. unfold rejection.
    assert ((a_min a <? 1) = false) as -> by (apply Z.ltb_ge; lia).
    assert ((a_max a >? 128) = false) as ->
      by (rewrite Z.gtb_ltb; apply Z.ltb_ge; lia).
    assert ((a_min a >? a_max a) = false) as ->
      by (rewrite Z.gtb_ltb; apply Z.ltb_ge; lia).
    assert ((a_count a <? 1) = true) as -> by (apply Z.ltb_lt; lia).
    done.
Qed.

(** Bounds out of range and a bad count at once: the message is the one on
    the length. *)
Lemma validation_exact_witness :
  validation {| a_count := 0; a_output := "out"; a_length := None;
                a_min := 0; a_max := 200; a_pattern := None |}
    (quiet_world (λ _, O))
  = (Raise (SystemExit 1),
     set_stdout ["[-] Password length must be between 1 and 128"]
       (quiet_world (λ _, O))).
Proof.
  apply (validation_exact
           {| a_count := 0; a_output := "out"; a_length := None;
              a_min := 0; a_max := 200; a_pattern := None |}
           (quiet_world (λ _, O))).
  left. simpl. lia.
Defined.

(** * The name of the output file *)

Lemma rev_app_app s t u :
  String.rev_app (s +:+ t) u = String.rev_app t (String.rev_app s u).
Proof.
  revert u. induction s as [|c s IH]; intros u; [done|].
  rewrite sapp_cons. simpl. apply IH.
Qed.

Lemma rev_app_end s u : String.rev_app s u = String.rev_app s "" +:+ u.
Proof.
  revert u. induction s as [|c s IH]; intros u; [done|]. simpl.
  rewrite (IH (String c u)), (IH (String c "")).
  by rewrite sapp_assoc, sapp_cons, sapp_nil_l.
Qed.

Lemma srev_app_distr s t : String.rev (s +:+ t) = String.rev t +:+ String.rev s.
Proof. unfold String.rev. by rewrite rev_app_app, rev_app_end. Qed.

Lemma srev_involutive s : String.rev (String.rev s) = s.
Proof.
  induction s as [|c s IH]; [done|].
  change (String c s) with (String c "" +:+ s).
  rewrite !srev_app_distr, IH. done.
Qed.

(** [s.endswith(suffix)] says that [s] is some text followed by
    [suffix]. *)
Lemma endswith_spec s suffix :
  Py.endswith s suffix = true ↔ ∃ p, s = p +:+ suffix.
Proof.
  unfold Py.endswith. split.
  - intros [r Hr]%sprefix_inv. exists (String.rev r).
    rewrite <- (srev_involutive s), Hr, srev_app_distr, srev_involutive. done.
  - intros [p ->]. rewrite srev_app_distr. apply sprefix_app.
Qed.

(** X2. The name [main] writes to always ends in [.txt]: a name that
    already does is kept, any other name (also one in [.TXT]) gets [.txt]
    appended, and naming twice changes nothing more. *)
Theorem output_name_txt (output : string) :
  (∃ p, output_name output = p +:+ ".txt")
  ∧ ((∃ p, output = p +:+ ".txt") → output_name output = output)
  ∧ ((¬ ∃ p, output = p +:+ ".txt") → output_name output = output +:+ ".txt")
  ∧ output_name (output_name output) = output_name output.
Proof.
  assert (H1 : ∃ p, output_name output = p +:+ ".txt").
  { unfold output_name. destruct (Py.endswith output ".txt") eqn:E.
    - by apply endswith_spec.
    - by exists output. }
  assert (H2 : ∀ s, (∃ p, s = p +:+ ".txt") → output_name s = s).
  { intros s Hs. apply endswith_spec in Hs. unfold output_name. by rewrite Hs. }
  split; [done|]. split; [apply H2|]. split; [|by apply H2].
  intros Hn. unfold output_name. destruct (Py.endswith output ".txt") eqn:E; [|done].
  destruct Hn. by apply endswith_spec.
Qed.

(** A name with the suffix and a name without it. *)
Lemma output_name_txt_witness :
  output_name "list.txt" = "list.txt" ∧ output_name "list.TXT" = "list.TXT.txt".
Proof.
  split.
  - apply (proj1 (proj2 (output_name_txt "list.txt"))). by exists "list".
  - reflexivity.
Defined.

(** * The confirmation *)

Lemma lower_char_y c :
  Py.lower_char c = "y"%char → c = "y"%char ∨ c = "Y"%char.
Proof.
  destruct c as [[] [] [] [] [] [] [] []]; vm_compute; intros H;
    first [discriminate H | by left | by right].
Qed.

(** The answers [main] takes for a yes: [y] and [Y], nothing else. *)
Lemma lower_y s : Py.lower s = "y" ↔ s = "y" ∨ s = "Y".
Proof.
  split.
  - destruct s as [|c [|c' s]]; simpl; intros H; try done.
    injection H as H. destruct (lower_char_y c H) as [-> | ->]; auto.
  - by intros [-> | ->].
Qed.

Lemma confirmation_small a w :
  a_count a ≤ 10000000 → confirmation a w = (Ok tt, w).
Proof.
  intros H. unfold confirmation.
  assert ((a_count a >? 10000000) = false) as ->
    by (rewrite Z.gtb_ltb; apply Z.ltb_ge; lia).
  done.
Qed.

Lemma confirmation_large a w :
  10000000 < a_count a →
  confirmation a w =
  (response <- input (confirmation_prompt a);;
   if String.eqb (Py.lower response) "y" then ret tt
   else print "[*] Aborted";;; sys_exit 0) w.
Proof.
  intros H. unfold confirmation.
  assert ((a_count a >? 10000000) = true) as ->
    by (rewrite Z.gtb_ltb; apply Z.ltb_lt; lia).
  done.
Qed.

Lemma confirmation_eof a w :
  10000000 < a_count a → stdin w = [] →
  confirmation a w =
  (Raise EOFError, set_stdout (stdout w ++ [confirmation_prompt a])%list w).
Proof.
  intros H Hs. rewrite confirmation_large by done. unfold bind, input. simpl.
  by rewrite Hs.
Qed.

Lemma confirmation_yes a w line rest :
  10000000 < a_count a → stdin w = line :: rest → line = "y" ∨ line = "Y" →
  confirmation a w =
  (Ok tt, set_stdin rest (set_stdout (stdout w ++ [confirmation_prompt a])%list w)).
Proof.
  intros H Hs Hy. rewrite confirmation_large by done. unfold bind, input. simpl.
  rewrite Hs. apply lower_y in Hy. by rewrite Hy.
Qed.

Lemma confirmation_no a w line rest :
  10000000 < a_count a → stdin w = line :: rest → line ≠ "y" → line ≠ "Y" →
  confirmation a w =
  (Raise (SystemExit 0),
   set_stdout (stdout w ++ [confirmation_prompt a; "[*] Aborted"])%list
     (set_stdin rest w)).
Proof.
  intros H Hs H1 H2. rewrite confirmation_large by done. unfold bind, input. simpl.
  rewrite Hs. destruct (String.eqb (Py.lower line) "y") eqn:E.
  - apply String.eqb_eq, lower_y in E. tauto.
  - unfold print, sys_exit, raise, set_stdout, set_stdin. simpl.
    by rewrite <- (assoc_L app).
Qed.

(** X3. Up to ten million passwords [main] asks nothing and reads nothing.
    Above, it prints its question and reads one line: [y] or [Y] lets the
    run go on; any other line prints [[*] Aborted] and leaves with the exit
    code 0; with no line to read, [input] raises [EOFError]. *)
Theorem confirmation_answers (a : args) (w : world) :
  (a_count a ≤ 10000000 → confirmation a w = (Ok tt, w))
  ∧ (10000000 < a_count a →
     (stdin w = [] →
      confirmation a w =
      (Raise EOFError, set_stdout (stdout w ++ [confirmation_prompt a])%list w))
     ∧ (∀ line rest, stdin w = line :: rest →
        (line = "y" ∨ line = "Y" →
         confirmation a w =
         (Ok tt,
          set_stdin rest (set_stdout (stdout w ++ [confirmation_prompt a])%list w)))
        ∧ (line ≠ "y" → line ≠ "Y" →
           confirmation a w =
           (Raise (SystemExit 0),
            set_stdout (stdout w ++ [confirmation_prompt a; "[*] Aborted"])%list
              (set_stdin rest w))))).
Proof.
  split; [apply confirmation_small|]. intros H.
  split; [by apply confirmation_eof|]. intros line rest Hs.
  split; [by apply confirmation_yes|by apply confirmation_no].
Qed.

(** Eleven million passwords asked for and the answer [n]. *)
Lemma confirmation_answers_witness :
  fst (confirmation
         {| a_count := 11000000; a_output := "out"; a_length := None;
            a_min := 6; a_max := 12; a_pattern := None |}
         (set_stdin ["n"] (quiet_world (λ _, O))))
  = Raise (SystemExit 0).
Proof.
  destruct (confirmation_answers
              {| a_count := 11000000; a_output := "out"; a_length := None;
                 a_min := 6; a_max := 12; a_pattern := None |}
              (set_stdin ["n"] (quiet_world (λ _, O)))) as [_ H].
  destruct H as [_ H]; [simpl; lia|].
  destruct (H "n" [] eq_refl) as [_ Hn].
  rewrite Hn; [reflexivity|discriminate|discriminate].
Defined.

(** * [main], from end to end *)

Lemma main_parts fuel a :
  main fuel a =
  (banner;;; validation a;;; confirmation a;;;
   passwords <- generate fuel a;; finish a passwords).
Proof. reflexivity. Qed.

(** Accepted arguments and no question to ask: [main] prints the banner,
    generates and finishes. *)
Lemma main_accepted fuel a w :
  rejection a = None → a_count a ≤ 10000000 →
  main fuel a w =
  (passwords <- generate fuel a;; finish a passwords)
    (set_stdout (stdout w ++ [banner_text])%list w).
Proof.
  intros Hr Hc. rewrite main_parts. unfold banner.
  erewrite bind_ok by apply print_run.
  erewrite bind_ok by (rewrite validation_run, Hr; reflexivity).
  erewrite bind_ok by (by apply confirmation_small).
  done.
Qed.


(** The end of [main] goes through whatever [save_to_file] answers: its
    three lines follow what [save_to_file] printed. *)
Lemma finish_run a passwords w b w1 :
  save_to_file (__init__ (a_min a) (a_max a)) passwords
    (output_name (a_output a)) w = (Ok b, w1) →
  finish a passwords w =
  (Ok tt,
   set_stdout (stdout w1 ++
                 [String Py.LF "[+] Generation complete!";
                  "[+] Total passwords: " +:+ Py.str (Z.of_nat (length passwords));
                  "[+] File: " +:+ output_name (a_output a)])%list w1).
Proof.
  intros H. unfold finish. erewrite bind_ok by apply H.
  erewrite bind_ok by apply print_run.
  erewrite bind_ok by apply print_run.
  rewrite print_run. unfold set_stdout. simpl.
  by rewrite <- !(assoc_L app).
Qed.


Lemma generate_random a fuel :
  truthy_str (a_pattern a) = false →
  generate fuel a =
  generate_random_passwords fuel (__init__ (a_min a) (a_max a)) (a_count a)
    (a_length a).
Proof. intros H. unfold generate. by rewrite H. Qed.




(** With accepted bounds, [generate_random_passwords] is the sampler at a
    target length that is the fixed length or lies within the bounds, in a
    world that differs by the draw of that length at most. *)
Lemma generate_random_passwords_accepted fuel mn mx count length w :
  mn ≤ mx →
  ∃ t w1,
    generate_random_passwords fuel (__init__ mn mx) count length w
      = sample_with fuel (__init__ mn mx) count t w1
    ∧ (∃ k, advanced k w w1) ∧ stdout w1 = stdout w
    ∧ ((length = Some t ∧ t ≠ 0) ∨ (truthy_int length = false ∧ mn ≤ t ≤ mx)).
Proof.
  intros Hle. destruct (truthy_int length) eqn:Ht.
  - destruct length as [l|]; [|done].
    assert (l ≠ 0) by (by intros ->).
    exists l, w. rewrite generate_random_passwords_fixed by done.
    split; [done|]. split; [|split; [done|by left]].
    exists O. unfold advanced. by rewrite Nat.add_0_r.
  - exists (chosen_length (__init__ mn mx) w), (after_draws 1 w).
    rewrite (generate_random_passwords_ranged _ _ _ _ _ Ht) by done.
    split; [done|]. split; [by exists 1%nat|]. split; [done|]. right.
    split; [done|]. by apply (chosen_length_range (__init__ mn mx)).
Qed.

(** X5. A run of [main] in random mode with accepted arguments and a
    destination that can be written, once it has returned: the destination
    reads back as exactly [count] lines, no two the same, each of the target
    length over the charset; the target length is the fixed length when one
    other than 0 is given, and lies within the bounds otherwise. *)
Theorem main_random_mode (fuel : nat) (a : args) (w w' : world) :
  1 ≤ a_min a → a_min a ≤ a_max a → a_max a ≤ 128 →
  1 ≤ a_count a → a_count a ≤ 10000000 →
  truthy_str (a_pattern a) = false →
  open_error w (output_name (a_output a)) = None →
  (∀ j, write_error w (output_name (a_output a)) j = None) →
  main fuel a w = (Ok tt, w') →
  ∃ res t,
    file_lines w' (output_name (a_output a)) = Some res
    ∧ Z.of_nat (length res) = a_count a
    ∧ NoDup res
    ∧ (∀ pwd, pwd ∈ res →
         String.length pwd = Z.to_nat t
         ∧ ∀ c, c ∈ chars pwd → c ∈ chars (charset (__init__ (a_min a) (a_max a))))
    ∧ ((a_length a = Some t ∧ t ≠ 0)
       ∨ (truthy_int (a_length a) = false ∧ a_min a ≤ t ≤ a_max a)).
Proof.
  intros H1 H2 H3 H4 H5 Hp Ho Hw.
  rewrite main_accepted; [|by apply rejection_good|done].
  rewrite (generate_random _ _ Hp).
  destruct (generate_random_passwords_accepted fuel (a_min a) (a_max a)
              (a_count a) (a_length a)
              (set_stdout (stdout w ++ [banner_text])%list w) H2)
    as (t & w1 & E & [k Hk] & _ & Ht).
  unfold bind at 1. rewrite E.
  destruct (sample_with _ _ _ _ _) as [[res|e|] w2] eqn:Es; [|done..].
  apply sample_with_ok in Es as (Hlen & Hnd & Hres & [k' Hk']); [|done|lia].
  pose proof (advanced_trans _ _ _ _ _ Hk Hk') as (_ & _ & _ & _ & Hoe & Hwe & _).
  simpl in Hoe, Hwe.
  erewrite finish_run.
  2:{ apply save_to_file_ok; [by rewrite Hoe|]. intros j _. by rewrite Hwe. }
  intros [= <-]. exists res, t.
  split; [|done]. unfold file_lines. simpl. rewrite lookup_insert_eq. simpl.
  f_equal. apply read_lines_file_text. intros pwd c Hpwd Hc.
  pose proof (charset_no_terminator (a_min a) (a_max a)) as Hf.
  rewrite Forall_forall in Hf. apply Hf. by apply (Hres pwd Hpwd).
Qed.

(** Two passwords of three characters, from the command line to the
    file. *)
Lemma main_random_mode_witness :
  ∃ res,
    file_lines
      (snd (main 5 {| a_count := 2; a_output := "out.txt"; a_length := Some 3;
                      a_min := 6; a_max := 12; a_pattern := None |}
              (quiet_world (λ i, 7 * i)%nat))) "out.txt" = Some res
    ∧ Z.of_nat (length res) = 2 ∧ NoDup res.
Proof.
  destruct (main_random_mode 5
              {| a_count := 2; a_output := "out.txt"; a_length := Some 3;
                 a_min := 6; a_max := 12; a_pattern := None |}
              (quiet_world (λ i, 7 * i)%nat)
              (snd (main 5 {| a_count := 2; a_output := "out.txt";
                              a_length := Some 3;
                              a_min := 6; a_max := 12; a_pattern := None |}
                      (quiet_world (λ i, 7 * i)%nat))))
    as (res & t & Hf & Hl & Hn & _);
    [simpl; lia|simpl; lia|simpl; lia|simpl; lia|simpl; lia
    |reflexivity|reflexivity|intros j; reflexivity|vm_compute; reflexivity|].
  exists res. split; [exact Hf|]. split; [exact Hl|exact Hn].
Defined.




(** * The script and its exit status *)







(** * The sampler at the edges *)

(** X8. A generator whose maximum is below its minimum: asked without a
    fixed length, or with the fixed length 0, [generate_random_passwords]
    raises the [ValueError] of [random.randint] before it prints or draws
    anything; with any other fixed length the bounds play no part. *)
Theorem generate_random_passwords_empty_range (fuel : nat) (self : MassPassGen)
    (count : Z) (length : option Z) (w : world) :
  max_len self < min_len self →
  (length = None ∨ length = Some 0 →
   ∃ msg,
     generate_random_passwords fuel self count length w
     = (Raise (ValueError msg), w))
  ∧ (∀ l, length = Some l → l ≠ 0 →
     generate_random_passwords fuel self count length w
     = sample_with fuel self count l w).
Proof.
  intros Hlt. split.
  - intros Hl. assert (Ht : truthy_int length = false)
      by (by destruct Hl as [-> | ->]).
    unfold generate_random_passwords, random.randint. rewrite Ht.
    assert ((max_len self <? min_len self) = true) as -> by (by apply Z.ltb_lt).
    by eexists.
  - intros l -> Hl. by rewrite generate_random_passwords_fixed.
Qed.

(** A generator built with the bounds 10 and 5, asked without a fixed
    length. *)
Lemma generate_random_passwords_empty_range_witness :
  ∃ msg,
    generate_random_passwords 3 (__init__ 10 5) 2 None (quiet_world (λ _, O))
    = (Raise (ValueError msg), quiet_world (λ _, O)).
Proof.
  apply (generate_random_passwords_empty_range 3 (__init__ 10 5) 2 None
           (quiet_world (λ _, O))); [simpl; lia|by left].
Defined.

(** With a target length below 1 there is one text to draw, the empty one:
    two or more are never reached. *)
Lemma sample_with_stalls_empty fuel self count t w :
  charset self ≠ "" → t ≤ 0 → 2 ≤ count →
  fst (sample_with fuel self count t w) = OutOfFuel.
Proof.
  intros Hne Ht Hc.
  destruct (sample_with fuel self count t w) as [[res|e|] w'] eqn:E; [| |done].
  - exfalso. apply sample_with_ok in E as (Hlen & Hnd & Hres & _); [|done|lia].
    pose proof (size_bounded (charset self) (Z.to_nat t) (list_to_set res)) as Hb.
    rewrite size_list_to_set in Hb by done.
    assert (length res ≤ String.length (charset self) ^ Z.to_nat t)%nat as Hle.
    { apply Hb. intros p Hp%elem_of_list_to_set. by apply Hres. }
    replace (Z.to_nat t) with O in Hle by lia. simpl in Hle. lia.
  - by apply sample_with_no_raise in E.
Qed.

Lemma sample_with_one_empty fuel self w t :
  charset self ≠ "" → t ≤ 0 →
  ∃ w', sample_with (S fuel) self 1 t w = (Ok [""], w')
        ∧ rng_pos w' = rng_pos w ∧ files w' = files w.
Proof.
  intros Hne Ht. unfold sample_with. erewrite bind_ok by apply print_run.
  destruct (sample_loop_step fuel self 1 t ∅
              (set_stdout (stdout w ++ ["[*] Generating " +:+ Py.str 1
                                          +:+ " random passwords..."])%list w))
    as (w1 & E & Hw1); [done|by rewrite size_empty|].
  replace (Z.to_nat t) with O in * by lia. simpl drawn_string in E.
  rewrite (right_id_L ∅ (∪)) in E.
  rewrite (sample_loop_done fuel _ _ _ {[""]}) in E
    by (rewrite size_singleton; lia).
  erewrite bind_ok by apply E. unfold ret. rewrite elements_singleton.
  exists w1. split; [done|]. destruct Hw1 as (_ & -> & _ & -> & _). simpl.
  split; [lia|done].
Qed.

(** X9. A negative fixed length makes every sample the empty text: every
    password returned is empty; one password asked for is returned as the
    empty text after one turn of the loop and without a draw; with two or
    more asked for the loop never ends. *)
Theorem generate_random_passwords_negative_length (fuel : nat) (mn mx count l : Z)
    (w : world) :
  l < 0 →
  (∀ res w',
     generate_random_passwords fuel (__init__ mn mx) count (Some l) w = (Ok res, w') →
     ∀ pwd, pwd ∈ res → pwd = "")
  ∧ (count = 1 → (1 ≤ fuel)%nat →
     ∃ w',
       generate_random_passwords fuel (__init__ mn mx) count (Some l) w
       = (Ok [""], w')
       ∧ rng_pos w' = rng_pos w ∧ files w' = files w)
  ∧ (2 ≤ count →
     fst (generate_random_passwords fuel (__init__ mn mx) count (Some l) w)
     = OutOfFuel).
Proof.
  intros Hl. rewrite generate_random_passwords_fixed by lia.
  split; [|split].
  - intros res w' E pwd Hp.
    destruct (sample_with_members _ _ _ _ _ _ _ (init_charset mn mx) E pwd Hp)
      as [Hlen _].
    replace (Z.to_nat l) with O in Hlen by lia. by destruct pwd.
  - intros -> Hf. destruct fuel as [|fuel]; [lia|].
    apply sample_with_one_empty; [done|lia].
  - intros Hc. apply sample_with_stalls_empty; [done|lia|done].
Qed.

(** The fixed length -3: one password is the empty text, and two are never
    there. *)
Lemma generate_random_passwords_negative_length_witness :
  fst (generate_random_passwords 1 (__init__ 6 12) 1 (Some (-3))
         (quiet_world (λ _, O))) = Ok [""]
  ∧ fst (generate_random_passwords 50 (__init__ 6 12) 2 (Some (-3))
           (quiet_world (λ i, i))) = OutOfFuel.
Proof.
  split.
  - destruct (generate_random_passwords_negative_length 1 6 12 1 (-3)
                (quiet_world (λ _, O))) as (_ & H & _); [lia|].
    destruct H as (w' & E & _); [reflexivity|lia|]. by rewrite E.
  - apply (generate_random_passwords_negative_length 50 6 12 2 (-3)
             (quiet_world (λ i, i))); lia.
Defined.

(** * The lines of the sampler on the console *)

(** One turn of the loop: the sample joins the set, and a progress line is
    printed if and only if the set then has a multiple of 100000 members. *)
Lemma sample_loop_turn fuel self count L (P : gset string) w :
  charset self ≠ "" → Z.of_nat (size P) < count →
  ∃ (P1 : gset string) w1,
    sample_loop (S fuel) self count L P w = sample_loop fuel self count L P1 w1
    ∧ (size P ≤ size P1 ≤ size P + 1)%nat ∧ (1 ≤ size P1)%nat
    ∧ (stdout w1 = stdout w
       ∨ (Z.of_nat (size P1) `mod` 100000 = 0
          ∧ stdout w1
            = (stdout w ++ [progress_line count (Z.of_nat (size P1))])%list)).
Proof.
  intros Hne H. apply Z.ltb_lt in H.
  cbn [sample_loop]. rewrite H. unfold random.choices.
  erewrite bind_ok by (by apply choices_nat_run).
  set (P1 := {[drawn_string (charset self) w 0 (Z.to_nat L)]} ∪ P).
  assert (Hs : (size P ≤ size P1 ≤ size P + 1)%nat ∧ (1 ≤ size P1)%nat).
  { unfold P1. rewrite size_union_alt, size_singleton.
    assert (Hd : P ∖ {[drawn_string (charset self) w 0 (Z.to_nat L)]} ⊆ P)
      by apply subseteq_difference_l, reflexivity.
    apply subseteq_size in Hd.
    assert (Hu : P ⊆ {[drawn_string (charset self) w 0 (Z.to_nat L)]} ∪ P)
      by apply union_subseteq_r.
    apply subseteq_size in Hu.
    rewrite size_union_alt, size_singleton in Hu. lia. }
  destruct Hs as [Hs1 Hs2].
  destruct (Z.of_nat (size P1) `mod` 100000 =? 0) eqn:E.
  - eexists P1, _. split; [by erewrite bind_ok by apply print_run|].
    split; [done|]. split; [done|]. right. by apply Z.eqb_eq in E.
  - eexists P1, _. split; [by erewrite bind_ok by reflexivity|].
    split; [done|]. split; [done|]. by left.
Qed.

(** The loop prints progress lines only, each for a positive multiple of
    100000 between the size of the set and [count]. *)
Lemma sample_loop_console fuel self count L (P : gset string) w :
  charset self ≠ "" →
  ∃ ks,
    stdout (snd (sample_loop fuel self count L P w))
    = (stdout w ++ (progress_line count <$> ks))%list
    ∧ Forall (λ k, Z.of_nat (size P) ≤ k ≤ count
                   ∧ 0 < k ∧ k `mod` 100000 = 0) ks.
Proof.
  intros Hne. revert P w. induction fuel as [|fuel IH]; intros P w.
  - exists []. split; [|done]. rewrite app_nil_r.
    destruct (decide (Z.of_nat (size P) < count)).
    + by rewrite sample_loop_0.
    + by rewrite sample_loop_done.
  - destruct (decide (Z.of_nat (size P) < count)) as [Hlt|].
    2:{ exists []. split; [|done]. by rewrite app_nil_r, sample_loop_done. }
    destruct (sample_loop_turn fuel self count L P w Hne Hlt)
      as (P1 & w1 & -> & Hs & Hpos & Hout).
    destruct (IH P1 w1) as (ks & E & Hks). rewrite E.
    assert (Hks' : Forall (λ k, Z.of_nat (size P) ≤ k ≤ count
                                ∧ 0 < k ∧ k `mod` 100000 = 0) ks).
    { eapply Forall_impl; [apply Hks|]. simpl. intros k ?. lia. }
    destruct Hout as [->|[Hm ->]].
    + by exists ks.
    + exists (Z.of_nat (size P1) :: ks). rewrite <- app_assoc. split; [done|].
      apply Forall_cons. split; [lia|done].
Qed.

Lemma sample_with_console fuel self count t w :
  charset self ≠ "" →
  ∃ ks,
    stdout (snd (sample_with fuel self count t w))
    = (stdout w ++ sampling_header count :: (progress_line count <$> ks))%list
    ∧ Forall (λ k, 0 < k ≤ count ∧ k `mod` 100000 = 0) ks.
Proof.
  intros Hne. unfold sample_with. erewrite bind_ok by apply print_run.
  destruct (sample_loop_console fuel self count t ∅
              (set_stdout (stdout w ++ [sampling_header count])%list w) Hne)
    as (ks & E & Hks).
  exists ks. split.
  - unfold bind. unfold sampling_header in *.
    destruct (sample_loop _ _ _ _ _ _) as [[P'| |] w1]; simpl in *;
      by rewrite E, <- app_assoc.
  - eapply Forall_impl; [apply Hks|]. simpl. intros k ?. lia.
Qed.

(** X10. What [generate_random_passwords] prints: its header line, then
    progress lines only, each for a number of passwords that is a positive
    multiple of 100000 and at most [count]; so below 100000 passwords the
    header is all it prints, whether the call returns or not. *)
Theorem generate_random_passwords_console (fuel : nat) (mn mx count : Z)
    (length : option Z) (w : world) :
  truthy_int length = true ∨ mn ≤ mx →
  ∃ ks,
    stdout (snd (generate_random_passwords fuel (__init__ mn mx) count length w))
    = (stdout w ++ sampling_header count :: (progress_line count <$> ks))%list
    ∧ Forall (λ k, 0 < k ≤ count ∧ k `mod` 100000 = 0) ks
    ∧ (count < 100000 → ks = []).
Proof.
  intros Hl.
  assert (∃ ks,
    stdout (snd (generate_random_passwords fuel (__init__ mn mx) count length w))
    = (stdout w ++ sampling_header count :: (progress_line count <$> ks))%list
    ∧ Forall (λ k, 0 < k ≤ count ∧ k `mod` 100000 = 0) ks)
    as (ks & E & Hks).
  { destruct (truthy_int length) eqn:Ht.
    - destruct length as [l|]; [|done].
      rewrite generate_random_passwords_fixed by (by intros ->).
      by apply sample_with_console.
    - destruct Hl as [|Hle]; [done|].
      rewrite (generate_random_passwords_ranged _ _ _ _ _ Ht) by done.
      destruct (sample_with_console fuel (__init__ mn mx) count
                  (chosen_length (__init__ mn mx) w) (after_draws 1 w))
        as (ks & E & Hks); [done|].
      by exists ks. }
  exists ks. split; [done|]. split; [done|].
  intros Hc. destruct ks as [|k ks]; [done|].
  apply Forall_cons in Hks as [(Hk & Hm) _].
  apply Z.mod_divide in Hm; [|done]. destruct Hm as [q ->]. lia.
Qed.

(** Three passwords of two characters: the header and nothing else. *)
Lemma generate_random_passwords_console_witness :
  stdout (snd (generate_random_passwords 5 (__init__ 6 12) 3 (Some 2)
                 (quiet_world (λ i, i * i)%nat)))
  = ["[*] Generating 3 random passwords..."].
Proof.
  destruct (generate_random_passwords_console 5 6 12 3 (Some 2)
              (quiet_world (λ i, i * i)%nat)) as (ks & E & _ & Hks);
    [by left|].
  rewrite E, Hks by lia. reflexivity.
Defined.

(** X13. With a count of 0 or below both generators print their first
    line and return the empty list at once: the sampler without entering
    its loop, whatever the fuel, and the pattern generator without a
    draw. *)
Theorem nonpositive_count (count : Z) :
  count ≤ 0 →
  (∀ fuel self l w,
     l ≠ 0 →
     generate_random_passwords fuel self count (Some l) w
     = (Ok [], set_stdout (stdout w ++ [sampling_header count])%list w))
  ∧ (∀ self pattern w,
       generate_pattern_passwords self pattern count w
       = (Ok [],
          set_stdout (stdout w ++ ["[*] Generating pattern-based passwords..."])%list w)).
Proof.
  intros Hc. split.
  - intros fuel self l w Hl. rewrite generate_random_passwords_fixed by done.
    unfold sample_with. erewrite bind_ok by apply print_run.
    erewrite bind_ok.
    2:{ apply sample_loop_done. rewrite size_empty. lia. }
    unfold ret. by rewrite elements_empty.
  - intros self pattern w. rewrite generate_pattern_passwords_run.
    unfold Py.range. replace (Z.to_nat count) with O by lia.
    change (3 * 0)%nat with O. by rewrite after_draws_0.
Qed.

(** No password asked for, of either generator, without any fuel. *)
Lemma nonpositive_count_witness :
  fst (generate_random_passwords 0 (__init__ 6 12) 0 (Some 8)
         (quiet_world (λ _, O))) = Ok []
  ∧ rng_pos (snd (generate_pattern_passwords (__init__ 6 12) "id{n}" (-4)
                    (quiet_world (λ _, O)))) = O.
Proof.
  destruct (nonpositive_count 0) as [H1 _]; [lia|].
  destruct (nonpositive_count (-4)) as [_ H2]; [lia|].
  split; [by rewrite H1|by rewrite H2].
Defined.

(** * Patterns with and without the seed *)

(** The text of a number determines the number. *)
Lemma str_inj i j : Py.str i = Py.str j → i = j.
Proof.
  intros E. pose proof (str_decimal i) as Hi. rewrite E, str_decimal in Hi.
  congruence.
Qed.

Lemma sapp_inj_length s1 s2 r1 r2 :
  String.length s1 = String.length s2 → s1 +:+ r1 = s2 +:+ r2 → s1 = s2.
Proof.
  revert s2. induction s1 as [|c s1 IH]; intros [|c2 s2] Hl E; try done.
  rewrite !sapp_cons in E. simpl in Hl. simplify_eq. f_equal. by apply IH.
Qed.

Lemma expansion_table_Some n a d s x v :
  expansion_table n a d s x = Some v →
  (x = "n"%char ∧ v = n) ∨ (x = "a"%char ∧ v = String a "")
  ∨ (x = "d"%char ∧ v = String d "") ∨ (x = "s"%char ∧ v = String s "").
Proof.
  unfold expansion_table. intros H.
  apply tab_union_Some in H as [H|[_ H]];
    [|apply tab_single_Some in H; tauto].
  apply tab_union_Some in H as [H|[_ H]];
    [|apply tab_single_Some in H; tauto].
  apply tab_union_Some in H as [H|[_ H]];
    apply tab_single_Some in H; tauto.
Qed.

(** The tokens of an expansion do not depend on the texts put for them. *)
Lemma expansion_table_None n a d s n' a' d' s' p :
  token_at (expansion_table n a d s) p = None →
  token_at (expansion_table n' a' d' s') p = None.
Proof.
  destruct p as [|c1 [|x [|c3 p]]]; simpl; try done.
  destruct (Ascii.eqb c1 "{" && Ascii.eqb c3 "}"); [|done].
  unfold expansion_table, tab_union, tab_single.
  by repeat (destruct (Ascii.eqb x _)).
Qed.

Lemma occurs_miss n a d s c p :
  token_at (expansion_table n a d s) (String c p) = None →
  occurs "{n}" (String c p) = occurs "{n}" p.
Proof.
  intros H. rewrite (occurs_eq _ (String c p)).
  destruct (String.prefix "{n}" (String c p)) eqn:E; [|done].
  apply sprefix_inv in E as [r E]. rewrite E in H.
  by rewrite (token_at_tok _ "n"%char n) in H.
Qed.

Lemma occurs_other x r :
  x ≠ "n"%char → x ≠ "{"%char →
  occurs "{n}" (tok x +:+ r) = occurs "{n}" r.
Proof.
  intros Hn Hb. unfold tok. rewrite !sapp_cons, sapp_nil_l.
  rewrite (occurs_eq _ (String "{" _)), (occurs_eq _ (String x _)),
    (occurs_eq _ (String "}" _)).
  cbn [String.prefix].
  destruct (ascii_dec "{" "{"); [|done].
  destruct (ascii_dec "n" x); [congruence|].
  destruct (ascii_dec "{" x); [congruence|].
  by destruct (ascii_dec "{" "}").
Qed.

Section TwoExpansions.
Variables (n1 n2 : string) (a1 d1 s1 a2 d2 s2 : ascii).

(** The two expansions of a pattern differ in length by the difference of
    the two texts put for [{n}], once for every [{n}] of the pattern. *)
Lemma substitute_lengths p :
  ∃ k : nat,
    (String.length (substitute (expansion_table n1 a1 d1 s1) p)
     + k * String.length n2
     = String.length (substitute (expansion_table n2 a2 d2 s2) p)
       + k * String.length n1)%nat
    ∧ (occurs "{n}" p = true → (0 < k)%nat).
Proof.
  induction p as [|x v r Hx IH|c p Hp IH]
    using (substitute_ind (expansion_table n1 a1 d1 s1)).
  - by exists O.
  - destruct IH as (k & Hk & Hpos).
    rewrite (substitute_hit _ _ _ _ Hx).
    destruct (expansion_table_Some _ _ _ _ _ _ Hx)
      as [[-> ->]|[[-> ->]|[[-> ->]|[-> ->]]]].
    + exists (S k). rewrite (substitute_hit _ "n"%char n2) by done.
      rewrite !slength_app. split; [lia|lia].
    + exists k. rewrite (substitute_hit _ "a"%char (String a2 "")) by done.
      rewrite !slength_app. split; [simpl; lia|].
      by rewrite occurs_other.
    + exists k. rewrite (substitute_hit _ "d"%char (String d2 "")) by done.
      rewrite !slength_app. split; [simpl; lia|].
      by rewrite occurs_other.
    + exists k. rewrite (substitute_hit _ "s"%char (String s2 "")) by done.
      rewrite !slength_app. split; [simpl; lia|].
      by rewrite occurs_other.
  - destruct IH as (k & Hk & Hpos). exists k.
    rewrite !substitute_miss by (done || by eapply expansion_table_None).
    split; [simpl; lia|].
    intros H. apply Hpos. by rewrite <- (occurs_miss _ _ _ _ _ _ Hp).
Qed.

(** Two equal expansions of a pattern with an [{n}], with texts of the same
    length for it, have the same text for it. *)
Lemma substitute_same_seed p :
  String.length n1 = String.length n2 →
  occurs "{n}" p = true →
  substitute (expansion_table n1 a1 d1 s1) p
  = substitute (expansion_table n2 a2 d2 s2) p →
  n1 = n2.
Proof.
  intros Hl.
  induction p as [|x v r Hx IH|c p Hp IH]
    using (substitute_ind (expansion_table n1 a1 d1 s1)); [done|..].
  - rewrite (substitute_hit _ _ _ _ Hx).
    destruct (expansion_table_Some _ _ _ _ _ _ Hx)
      as [[-> ->]|[[-> ->]|[[-> ->]|[-> ->]]]].
    + rewrite (substitute_hit _ "n"%char n2) by done.
      intros _ E. by apply sapp_inj_length in E.
    + rewrite (substitute_hit _ "a"%char (String a2 "")) by done.
      rewrite occurs_other by done.
      rewrite !sapp_cons, !sapp_nil_l. intros Ho [= _ E]. by apply IH.
    + rewrite (substitute_hit _ "d"%char (String d2 "")) by done.
      rewrite occurs_other by done.
      rewrite !sapp_cons, !sapp_nil_l. intros Ho [= _ E]. by apply IH.
    + rewrite (substitute_hit _ "s"%char (String s2 "")) by done.
      rewrite occurs_other by done.
      rewrite !sapp_cons, !sapp_nil_l. intros Ho [= _ E]. by apply IH.
  - rewrite !substitute_miss by (done || by eapply expansion_table_None).
    rewrite (occurs_miss _ _ _ _ _ _ Hp). intros Ho [= E]. by apply IH.
Qed.

Lemma substitute_seed_inj p :
  occurs "{n}" p = true →
  substitute (expansion_table n1 a1 d1 s1) p
  = substitute (expansion_table n2 a2 d2 s2) p →
  n1 = n2.
Proof.
  intros Ho E. apply (substitute_same_seed p); [|done..].
  destruct (substitute_lengths p) as (k & Hk & Hpos).
  specialize (Hpos Ho). rewrite E in Hk. nia.
Qed.

End TwoExpansions.

(** Expansions of a pattern with an [{n}] for two seeds differ, whatever is
    drawn for the other tokens. *)
Lemma expansion_seed_inj pattern i j w1 w2 :
  occurs "{n}" pattern = true → occurs "{{a}}" pattern = false →
  expansion pattern i w1 = expansion pattern j w2 → i = j.
Proof.
  intros Ho Ha E. unfold expansion in E.
  rewrite !replace_four_substitute in E by by left.
  apply substitute_seed_inj in E; [|done]. by apply str_inj.
Qed.

Lemma range_NoDup count : NoDup (Py.range count).
Proof.
  unfold Py.range. apply (NoDup_fmap_2 _). apply NoDup_seq.
Qed.

Lemma pattern_passwords_NoDup self pattern count w :
  occurs "{n}" pattern = true → occurs "{{a}}" pattern = false →
  NoDup (pattern_passwords self pattern count w).
Proof.
  intros Ho Ha. unfold pattern_passwords. apply NoDup_filter.
  apply NoDup_alt. intros i j x. rewrite !list_lookup_imap.
  destruct (Py.range count !! i) as [si|] eqn:Ei; [|done].
  destruct (Py.range count !! j) as [sj|] eqn:Ej; [|done].
  simpl. intros [= <-] [= E].
  apply expansion_seed_inj in E; [|done..]. subst sj.
  by eapply NoDup_lookup; [apply range_NoDup|..].
Qed.

(** X12. A pattern that holds [{n}], and no [{a}] between braces, expands
    to different texts for different seeds, whatever is drawn for the other
    tokens: [generate_pattern_passwords] returns at most [count] passwords,
    no two the same. *)
Theorem generate_pattern_passwords_distinct (self : MassPassGen)
    (pattern : string) (count : Z) (w : world) :
  occurs "{n}" pattern = true → occurs "{{a}}" pattern = false →
  (∀ i j w1 w2, expansion pattern i w1 = expansion pattern j w2 → i = j)
  ∧ ∃ res w',
      generate_pattern_passwords self pattern count w = (Ok res, w')
      ∧ NoDup res
      ∧ (length res ≤ Z.to_nat count)%nat.
Proof.
  intros Ho Ha. split.
  { intros i j w1 w2. by apply expansion_seed_inj. }
  eexists _, _. split; [apply generate_pattern_passwords_run|].
  split; [by apply (pattern_passwords_NoDup self pattern count w)|].
  etrans; [apply length_filter|].
  by rewrite length_imap, range_length.
Qed.

(** Twelve seeds in a pattern with a letter before and a digit behind the
    seed. *)
Lemma generate_pattern_passwords_distinct_witness :
  ∃ res w',
    generate_pattern_passwords (__init__ 3 3) "{a}{n}{d}" 12
      (quiet_world (λ i, i * 7)%nat) = (Ok res, w')
    ∧ NoDup res ∧ (length res ≤ 12)%nat.
Proof.
  apply (generate_pattern_passwords_distinct (__init__ 3 3) "{a}{n}{d}" 12
           (quiet_world (λ i, i * 7)%nat)); reflexivity.
Defined.

(** A text without an opening brace is its own expansion. *)
Lemma expansion_literal pattern seed w :
  "{"%char ∉ chars pattern → expansion pattern seed w = pattern.
Proof.
  intros H. unfold expansion.
  rewrite <- (sapp_nil_r pattern).
  rewrite (replace_inert "{n}" _ "{" "n}" eq_refl) by done.
  rewrite replace_nil by done.
  rewrite (replace_inert "{a}" _ "{" "a}" eq_refl) by done.
  rewrite replace_nil by done.
  rewrite (replace_inert "{d}" _ "{" "d}" eq_refl) by done.
  rewrite replace_nil by done.
  rewrite (replace_inert "{s}" _ "{" "s}" eq_refl) by done.
  by rewrite replace_nil by done.
Qed.

Lemma filter_replicate_true {A} (P : A → Prop) `{∀ x, Decision (P x)} n x :
  P x → filter P (replicate n x) = replicate n x.
Proof.
  intros Hx. induction n as [|n IH]; [done|]. simpl.
  by rewrite filter_cons, decide_True, IH.
Qed.

Lemma filter_replicate_false {A} (P : A → Prop) `{∀ x, Decision (P x)} n x :
  ¬ P x → filter P (replicate n x) = [].
Proof.
  intros Hx. induction n as [|n IH]; [done|]. simpl.
  by rewrite filter_cons, decide_False, IH.
Qed.

Lemma imap_constant {A B} (f : nat → A → B) (l : list A) y :
  (∀ i x, f i x = y) → imap f l = replicate (length l) y.
Proof.
  revert f. induction l as [|x l IH]; intros f Hf; [done|].
  simpl. rewrite Hf. f_equal. apply IH. intros i x'. apply Hf.
Qed.

(** X11. A pattern without an opening brace is its own expansion, for
    every seed and every draw: [generate_pattern_passwords] returns it
    [count] times over, duplicates and all, when its length is within the
    bounds, and the empty list otherwise. *)
Theorem generate_pattern_passwords_literal (self : MassPassGen)
    (pattern : string) (count : Z) (w : world) :
  "{"%char ∉ chars pattern →
  fst (generate_pattern_passwords self pattern count w)
  = Ok (if length_ok self pattern
        then replicate (Z.to_nat count) pattern else []).
Proof.
  intros H. rewrite generate_pattern_passwords_run. cbn [fst]. f_equal.
  rewrite (imap_constant _ _ pattern)
    by (intros i x; by apply expansion_literal).
  rewrite range_length.
  destruct (length_ok self pattern) eqn:E.
  - apply filter_replicate_true. by apply Is_true_true.
  - apply filter_replicate_false. by apply Is_true_false.
Qed.

(** Three times the same word. *)
Lemma generate_pattern_passwords_literal_witness :
  fst (generate_pattern_passwords (__init__ 6 12) "letmein" 3
         (quiet_world (λ i, i)))
  = Ok ["letmein"; "letmein"; "letmein"].
Proof.
  apply (generate_pattern_passwords_literal (__init__ 6 12) "letmein" 3
           (quiet_world (λ i, i))).
  by_evaluation.
Defined.
